(** * mcp-sse-calculator: the session router and the leaf tools of [src/server.ts]

    A shallow embedding of the Express handlers ([app.post('/mcp')],
    [handleSessionRequest]), of the two callbacks handed to the SDK transport
    ([onsessioninitialized], [transport.onclose]) and of the [calculate] and
    [convert] tools, followed by the properties the specification states
    about them. *)

From Stdlib Require Import ZArith QArith Qabs Floats Ascii String List Lia.
From Stdlib Require Import DecimalString.
From stdpp Require Import gmap strings list fin_maps.

Local Open Scope string_scope.

(* ===================================================================== *)
(** * Part I: the embedding                                               *)
(* ===================================================================== *)

(** ** JavaScript values the handlers rely on *)

(** [ToBoolean] on a string: only the empty string is falsy. *)
Definition truthy_string (s : string) : bool :=
  negb (String.eqb s "").

(** The own properties of an object literal [{...}] are a finite map from
    property names. A property read [o[k]] that finds no own property goes
    on to [Object.prototype], whose members are listed here (none of them is
    falsy: eleven functions and the [__proto__] accessor, which yields
    [Object.prototype] itself). *)
Definition object_prototype_names : list string :=
  [ "constructor"; "hasOwnProperty"; "isPrototypeOf"; "propertyIsEnumerable";
    "toLocaleString"; "toString"; "valueOf"; "__proto__";
    "__defineGetter__"; "__defineSetter__"; "__lookupGetter__";
    "__lookupSetter__" ].

(** What a property read on an object literal yields. *)
Inductive Lookup (V : Type) : Type :=
| Own (v : V)                 (* an own property, holding [v] *)
| Inherited (name : string)   (* the member [name] of [Object.prototype] *)
| Undefined.                  (* [undefined] *)
Arguments Own {V} v.
Arguments Inherited {V} name.
Arguments Undefined {V}.

Definition inherited_name (k : string) : bool :=
  bool_decide (k ∈ object_prototype_names).

(** [o[k]], for [o] an object literal whose own properties are [o]. *)
Definition obj_get {V : Type} (o : gmap string V) (k : string) : Lookup V :=
  match o !! k with
  | Some v => Own v
  | None => if inherited_name k then Inherited k else Undefined
  end.

(** [ToBoolean (o[k])] where the own properties hold objects or functions. *)
Definition truthy_lookup {V : Type} (l : Lookup V) : bool :=
  match l with
  | Undefined => false
  | _ => true
  end.

(** ** Session identifiers

    [sessionIdGenerator: () => randomUUID()]: the identifiers the SDK hands
    to [onsessioninitialized] are the 36-character strings of
    [crypto.randomUUID]: lower-case hexadecimal digits with hyphens at
    offsets 8, 13, 18 and 23. *)
Definition is_hex_digit (c : ascii) : bool :=
  let n := nat_of_ascii c in
  (Nat.leb 48 n && Nat.leb n 57) || (Nat.leb 97 n && Nat.leb n 102).

Fixpoint uuid_shape (i : nat) (cs : list ascii) : bool :=
  match cs with
  | [] => Nat.eqb i 36
  | c :: cs' =>
      (if Nat.eqb i 8 || Nat.eqb i 13 || Nat.eqb i 18 || Nat.eqb i 23
       then Ascii.eqb c "-"%char
       else is_hex_digit c)
      && uuid_shape (S i) cs'
  end.

Definition is_uuid (s : string) : bool :=
  uuid_shape 0 (list_ascii_of_string s).

(** ** The session store and the transports

    [const transports: { [sessionId: string]: StreamableHTTPServerTransport } = {}]
    is a module-level object literal; its values are references to transport
    objects. A transport object is identified by the order in which it was
    constructed; the only field of it the handlers read is
    [transport.sessionId], which the SDK sets when it initializes a
    session. *)
Record World : Type := mkWorld {
  transports : gmap string nat;    (* own properties of [transports] *)
  sessionId_of : gmap nat string;  (* [transport.sessionId], once set *)
  constructed : nat                (* transport objects constructed so far *)
}.

Definition initial : World :=
  {| transports := ∅; sessionId_of := ∅; constructed := 0 |}.

(** [onsessioninitialized: (sessionId) => { transports[sessionId] = transport; }]

    The assignment creates or overwrites an own property; the SDK passes
    what [sessionIdGenerator] returned, so [sessionId] is never
    [__proto__], the one name whose assignment would do something else. *)
Definition onsessioninitialized (transport : nat) (sessionId : string)
    (w : World) : World :=
  {| transports := <[sessionId := transport]> (transports w);
     sessionId_of := sessionId_of w;
     constructed := constructed w |}.

(** [transport.onclose = () => { if (transport.sessionId) { delete transports[transport.sessionId]; } }] *)
Definition onclose (transport : nat) (w : World) : World :=
  match sessionId_of w !! transport with
  | Some sessionId =>
      if truthy_string sessionId
      then {| transports := delete sessionId (transports w);
              sessionId_of := sessionId_of w;
              constructed := constructed w |}
      else w
  | None => w
  end.

(** What the SDK transport may do to the handlers' state while it serves a
    request: it runs the two callbacks above. The SDK is not part of the
    repository, so which callbacks run during a given [handleRequest] is an
    input of the model. *)
Inductive SdkEvent : Type :=
| SessionInitialized (generated : string)
    (* the SDK called [sessionIdGenerator()], stored the result in
       [transport.sessionId] and called [onsessioninitialized] with it *)
| TransportClosed.
    (* the SDK called [transport.onclose()] *)

Definition fire (transport : nat) (w : World) (e : SdkEvent) : World :=
  match e with
  | SessionInitialized generated =>
      onsessioninitialized transport generated
        {| transports := transports w;
           sessionId_of := <[transport := generated]> (sessionId_of w);
           constructed := constructed w |}
  | TransportClosed => onclose transport w
  end.

(** [await transport.handleRequest(req, res, ...)] as seen from the store. *)
Definition handleRequest (transport : nat) (reaction : list SdkEvent)
    (w : World) : World :=
  fold_left (fire transport) reaction w.

(** ** Responses *)

Inductive Payload : Type :=
| JsonRpcError (code : Z) (message : string)
    (* [{ jsonrpc: '2.0', error: { code, message }, id: null }] *)
| PlainText (body : string).

Inductive Outcome (Body : Type) : Type :=
| Delegated (transport : nat) (parsedBody : option Body)
    (* [transport.handleRequest] was called; the SDK writes the response *)
| Responded (status : Z) (payload : Payload)
    (* the handler wrote the response itself; no transport was called *)
| Threw (error : string).
    (* the handler's promise rejected *)
Arguments Delegated {Body} transport parsedBody.
Arguments Responded {Body} status payload.
Arguments Threw {Body} error.

Definition no_valid_session : Payload :=
  JsonRpcError (-32000) "Bad Request: No valid session ID provided".

Definition invalid_or_missing : Payload :=
  PlainText "Invalid or missing session ID".

Definition not_a_function : string :=
  "TypeError: transport.handleRequest is not a function".

Section Router.

(** The request body after [express.json()], and the SDK's
    [isInitializeRequest] schema test on it. *)
Variable Body : Type.
Variable isInitializeRequest : Body -> bool.

(** [sessionId && transports[sessionId]], with
    [sessionId = req.headers['mcp-session-id'] as string | undefined]. *)
Definition session_lookup (w : World) (sessionId : option string) : Lookup nat :=
  match sessionId with
  | Some id => if truthy_string id then obj_get (transports w) id else Undefined
  | None => Undefined
  end.

(** [!sessionId] *)
Definition no_session_id (sessionId : option string) : bool :=
  match sessionId with
  | Some id => negb (truthy_string id)
  | None => true
  end.

(** [app.post('/mcp', async (req, res) => { ... })] *)
Definition post (w : World) (sessionId : option string) (body : Body)
    (reaction : list SdkEvent) : World * Outcome Body :=
  if truthy_lookup (session_lookup w sessionId) then
    (* transport = transports[sessionId]; *)
    match session_lookup w sessionId with
    | Own transport =>
        (handleRequest transport reaction w, Delegated transport (Some body))
    | _ => (w, Threw not_a_function)
    end
  else if no_session_id sessionId && isInitializeRequest body then
    (* transport = new StreamableHTTPServerTransport({...}) *)
    let transport := constructed w in
    let w' := {| transports := transports w;
                 sessionId_of := sessionId_of w;
                 constructed := S (constructed w) |} in
    (handleRequest transport reaction w', Delegated transport (Some body))
  else
    (w, Responded 400 no_valid_session).

(** [const handleSessionRequest = async (req, res) => { ... }] *)
Definition handleSessionRequest (w : World) (sessionId : option string)
    (reaction : list SdkEvent) : World * Outcome Body :=
  if no_session_id sessionId || negb (truthy_lookup (session_lookup w sessionId)) then
    (w, Responded 400 invalid_or_missing)
  else
    match session_lookup w sessionId with
    | Own transport =>
        (handleRequest transport reaction w, Delegated transport None)
    | _ => (w, Threw not_a_function)
    end.

(** Everything that can touch the store: the three routes, and a transport
    that closes outside a request (connection loss). *)
Inductive Call : Type :=
| POST (sessionId : option string) (body : Body) (reaction : list SdkEvent)
| GET (sessionId : option string) (reaction : list SdkEvent)
| DELETE (sessionId : option string) (reaction : list SdkEvent)
| Closes (transport : nat).

Definition serve (w : World) (c : Call) : World * option (Outcome Body) :=
  match c with
  | POST sessionId body reaction =>
      let '(w', o) := post w sessionId body reaction in (w', Some o)
  | GET sessionId reaction | DELETE sessionId reaction =>
      let '(w', o) := handleSessionRequest w sessionId reaction in (w', Some o)
  | Closes transport => (onclose transport w, None)
  end.

(** The identifiers the SDK generates come from [randomUUID]. *)
Definition generated_ok (e : SdkEvent) : bool :=
  match e with
  | SessionInitialized generated => is_uuid generated
  | TransportClosed => true
  end.

Definition call_ok (c : Call) : bool :=
  match c with
  | POST _ _ reaction | GET _ reaction | DELETE _ reaction =>
      forallb generated_ok reaction
  | Closes _ => true
  end.

Inductive reachable : World -> Prop :=
| reachable_initial : reachable initial
| reachable_serve w c :
    reachable w -> call_ok c = true -> reachable (fst (serve w c)).

(** Every identifier in the store, and every [transport.sessionId], is a
    generated one, and the store refers to constructed transports only. *)
Definition store_ok (w : World) : Prop :=
  (forall id t, transports w !! id = Some t ->
     is_uuid id = true /\ t < constructed w) /\
  (forall t id, sessionId_of w !! t = Some id -> is_uuid id = true).

End Router.

(** ** Tool results: [{ content: [{ type: "text", text }] }] *)

Record TextContent : Type := { type : string; text : string }.
Record ToolResult : Type := { content : list TextContent }.

Definition text_result (s : string) : ToolResult :=
  {| content := [ {| type := "text"; text := s |} ] |}.

(** ** The [calculate] tool *)

(** The class of [/[^-()*+/0-9.]/g] is negated: a character is left alone
    exactly when it is [-], [(], [)], [*], [+], [/], a digit in the range
    [0-9], or [.]. *)
Definition in_class (c : ascii) : bool :=
  Ascii.eqb c "-" || Ascii.eqb c "(" || Ascii.eqb c ")" || Ascii.eqb c "*"
  || Ascii.eqb c "+" || Ascii.eqb c "/"
  || (Nat.leb (nat_of_ascii "0") (nat_of_ascii c)
      && Nat.leb (nat_of_ascii c) (nat_of_ascii "9"))
  || Ascii.eqb c ".".

(** [expression.replace(/[^-()*+/0-9.]/g, '')]: with the [g] flag every
    match, that is every single character outside the class, is replaced by
    the empty string. The class is ASCII, so it makes no difference that the
    characters are read here as the bytes of the UTF-8 text and by the
    engine as UTF-16 code units: all units of a non-ASCII character go. *)
Fixpoint replace_disallowed (expression : string) : string :=
  match expression with
  | EmptyString => EmptyString
  | String c rest =>
      if in_class c then String c (replace_disallowed rest)
      else replace_disallowed rest
  end.

(** How [eval(...)] followed by the template literal [`Result: ${result}`]
    completes: normally, with the text [${result}] renders to, or abruptly,
    with an exception that the [catch] clause receives. *)
Inductive Completion : Type :=
| Normal (rendered : string)
| Abrupt.

Section Calculate.

(** [eval] is the engine's; the tool is embedded over any evaluator. *)
Variable eval : string -> Completion.

(** [async ({ expression }) => { try { ... } catch (error) { ... } }] *)
Definition calculate (expression : string) : ToolResult :=
  match eval (replace_disallowed expression) with
  | Normal rendered => text_result ("Result: " ++ rendered)
  | Abrupt =>
      text_result ("Error: Could not evaluate expression '" ++ expression ++ "'")
  end.

End Calculate.

(** *** What the engine computes on integer arithmetic

    A reference evaluator for the part of the language that the class lets
    through and whose value is an exact integer: decimal integer literals,
    binary [+ - *], unary [+ -] and parentheses, with every intermediate
    value of magnitude at most 2^53, where Number arithmetic is exact.
    [None] means the text is outside that part (division, fractions, [**],
    [++], [--], comments, regular-expression literals, legacy octal
    literals, or a syntax error); nothing is said about it. *)
Inductive token : Type :=
| TNum (n : Z) | TPlus | TMinus | TStar | TLParen | TRParen.

Definition digit_value (c : ascii) : option Z :=
  let n := nat_of_ascii c in
  if Nat.leb 48 n && Nat.leb n 57 then Some (Z.of_nat (n - 48)) else None.

Definition flush (pending : option Z) (ts : list token) : list token :=
  match pending with
  | Some n => TNum n :: ts
  | None => ts
  end.

Definition starts_with (c : ascii) (cs : list ascii) : bool :=
  match cs with
  | c' :: _ => Ascii.eqb c c'
  | [] => false
  end.

(** [pending] is the value of the literal being read, if any. *)
Fixpoint lex (pending : option Z) (cs : list ascii) : option (list token) :=
  match cs with
  | [] => Some (flush pending [])
  | c :: cs' =>
      match digit_value c with
      | Some d =>
          match pending with
          | Some 0%Z => None                       (* [01], [007]: not decimal *)
          | Some n => lex (Some (10 * n + d)%Z) cs'
          | None => lex (Some d) cs'
          end
      | None =>
          let punct (t : token) :=
            if starts_with c cs' && negb (Ascii.eqb c "(") && negb (Ascii.eqb c ")")
            then None                              (* [++], [--], [**] *)
            else option_map (fun ts => flush pending (t :: ts)) (lex None cs') in
          if Ascii.eqb c "+" then punct TPlus
          else if Ascii.eqb c "-" then punct TMinus
          else if Ascii.eqb c "*" then punct TStar
          else if Ascii.eqb c "(" then punct TLParen
          else if Ascii.eqb c ")" then punct TRParen
          else None
      end
  end.

Definition safe_integer (n : Z) : option Z :=
  if (Z.abs n <=? 2 ^ 53)%Z then Some n else None.

(** Recursive descent along the grammar: AdditiveExpression over
    MultiplicativeExpression over UnaryExpression over a literal or a
    parenthesized expression; the binary operators associate to the left. *)
Fixpoint additive (fuel : nat) (ts : list token) : option (Z * list token) :=
  match fuel with
  | O => None
  | S fuel' =>
      match multiplicative fuel' ts with
      | Some (v, rest) => additive_rest fuel' v rest
      | None => None
      end
  end
with additive_rest (fuel : nat) (acc : Z) (ts : list token)
    : option (Z * list token) :=
  match fuel with
  | O => None
  | S fuel' =>
      match ts with
      | TPlus :: ts' =>
          match multiplicative fuel' ts' with
          | Some (v, rest) =>
              match safe_integer (acc + v) with
              | Some s => additive_rest fuel' s rest
              | None => None
              end
          | None => None
          end
      | TMinus :: ts' =>
          match multiplicative fuel' ts' with
          | Some (v, rest) =>
              match safe_integer (acc - v) with
              | Some s => additive_rest fuel' s rest
              | None => None
              end
          | None => None
          end
      | _ => Some (acc, ts)
      end
  end
with multiplicative (fuel : nat) (ts : list token) : option (Z * list token) :=
  match fuel with
  | O => None
  | S fuel' =>
      match unary fuel' ts with
      | Some (v, rest) => multiplicative_rest fuel' v rest
      | None => None
      end
  end
with multiplicative_rest (fuel : nat) (acc : Z) (ts : list token)
    : option (Z * list token) :=
  match fuel with
  | O => None
  | S fuel' =>
      match ts with
      | TStar :: ts' =>
          match unary fuel' ts' with
          | Some (v, rest) =>
              match safe_integer (acc * v) with
              | Some s => multiplicative_rest fuel' s rest
              | None => None
              end
          | None => None
          end
      | _ => Some (acc, ts)
      end
  end
with unary (fuel : nat) (ts : list token) : option (Z * list token) :=
  match fuel with
  | O => None
  | S fuel' =>
      match ts with
      | TMinus :: ts' =>
          match unary fuel' ts' with
          | Some (v, rest) => Some ((- v)%Z, rest)
          | None => None
          end
      | TPlus :: ts' => unary fuel' ts'
      | TNum n :: ts' => safe_integer n ≫= fun s => Some (s, ts')
      | TLParen :: ts' =>
          match additive fuel' ts' with
          | Some (v, TRParen :: rest) => Some (v, rest)
          | _ => None
          end
      | _ => None
      end
  end.

Definition integer_arithmetic (source : string) : option Z :=
  match lex None (list_ascii_of_string source) with
  | Some ts =>
      match additive (4 * length ts + 4) ts with
      | Some (v, []) => Some v
      | _ => None
      end
  | None => None
  end.

(** [Number::toString] on an integer of magnitude below 10^21, and so what
    a template literal renders such a value to. *)
Definition show_integer (n : Z) : string :=
  NilZero.string_of_int (Z.to_int n).


(** ** The [convert] tool *)

(** *** Numbers

    The conversion table is written over the arithmetic operations it
    uses; the tool runs it over binary64, the arithmetic of JavaScript
    numbers. *)
Record Arith (N : Type) : Type := {
  add : N -> N -> N;
  sub : N -> N -> N;
  mul : N -> N -> N;
  div : N -> N -> N;
  literal : Z -> nat -> N
    (* [literal d k]: the numeric literal whose digits are [d], the last
       [k] of them after the decimal point *)
}.
Arguments add {N} _ _ _.
Arguments sub {N} _ _ _.
Arguments mul {N} _ _ _.
Arguments div {N} _ _ _.
Arguments literal {N} _ _ _.

Definition float_of_Z (z : Z) : float :=
  PrimFloat.of_uint63 (Uint63.of_Z z).

(** Numerator and denominator are below 2^53, hence exact, and the
    quotient is rounded once, to nearest-even: the literal's Number value. *)
Definition float_literal (digits : Z) (decimals : nat) : float :=
  match decimals with
  | O => float_of_Z digits
  | _ => PrimFloat.div (float_of_Z digits) (float_of_Z (10 ^ Z.of_nat decimals))
  end.

Definition binary64 : Arith float :=
  {| add := PrimFloat.add; sub := PrimFloat.sub;
     mul := PrimFloat.mul; div := PrimFloat.div;
     literal := float_literal |}.

(** [const conversions: Record<string, Record<string, (val: number) => number>> = { ... }] *)
Definition conversions {N : Type} (A : Arith N)
    : gmap string (gmap string (N -> N)) :=
  {[ "celsius" :=
       {[ "fahrenheit" := fun c =>
            add A (div A (mul A c (literal A 9 0)) (literal A 5 0)) (literal A 32 0) ]};
     "fahrenheit" :=
       {[ "celsius" := fun f =>
            div A (mul A (sub A f (literal A 32 0)) (literal A 5 0)) (literal A 9 0) ]};
     "kilometers" := {[ "miles" := fun km => mul A km (literal A 621371 6) ]};
     "miles" := {[ "kilometers" := fun mi => mul A mi (literal A 160934 5) ]};
     "kilograms" := {[ "pounds" := fun kg => mul A kg (literal A 220462 5) ]};
     "pounds" := {[ "kilograms" := fun lb => mul A lb (literal A 453592 6) ]} ]}.

(** The table entry for a pair of units, when there is one. *)
Definition entry {N : Type} (A : Arith N) (fromUnit toUnit : string)
    : option (N -> N) :=
  conversions A !! fromUnit ≫= fun row => row !! toUnit.

(** Converting from [fromUnit] to [toUnit] and back with the functions of
    the table, when it has both. *)
Definition round_trip {N : Type} (A : Arith N) (fromUnit toUnit : string)
    (v : N) : option N :=
  entry A fromUnit toUnit ≫= fun there =>
  entry A toUnit fromUnit ≫= fun back => Some (back (there v)).

(** The Number an integer of magnitude below 2^53 is. *)
Definition float_of_int (z : Z) : float :=
  if (z <? 0)%Z then PrimFloat.opp (float_of_Z (- z)) else float_of_Z z.





(** The integers from [lo] to [hi]. *)
Fixpoint Z_upto (count : nat) (from : Z) : list Z :=
  match count with
  | O => []
  | S count' => from :: Z_upto count' (from + 1)%Z
  end.

Definition Z_range (lo hi : Z) : list Z :=
  Z_upto (Z.to_nat (hi - lo + 1)) lo.

(** *** Number to text *)

(** The integer a finite binary64 value is, when it is one of magnitude at
    most 2^53. *)
Definition integer_value (x : float) : option Z :=
  match Prim2SF x with
  | S754_zero _ => Some 0%Z
  | S754_finite s m e =>
      let signed (n : Z) := if s then (- n)%Z else n in
      if (0 <=? e)%Z
      then safe_integer (signed (Z.pos m * 2 ^ e)%Z)
      else if (Z.pos m mod 2 ^ (- e) =? 0)%Z
           then safe_integer (signed (Z.pos m / 2 ^ (- e))%Z)
           else None
  | _ => None
  end.

(** [n] such that [n / 10^f - num/den] is as close to zero as possible, the
    larger one if there are two; for [num >= 0] and [den > 0]. *)
Definition nearest_scaled (f : nat) (num den : Z) : Z :=
  ((2 * num * 10 ^ Z.of_nat f + den) / (2 * den))%Z.

Fixpoint zeros (k : nat) : string :=
  match k with
  | O => ""
  | S k' => String "0" (zeros k')
  end.

(** Steps 9.b and 9.c of [Number.prototype.toFixed]: the digits of [n],
    padded on the left to [f + 1] digits, with a point before the last
    [f]. *)
Definition point_before_last (f : nat) (n : Z) : string :=
  let m := show_integer n in
  let m := zeros (S f - String.length m) ++ m in
  let k := String.length m in
  match f with
  | O => m
  | _ => substring 0 (k - f) m ++ "." ++ substring (k - f) f m
  end.

Section Convert.

(** [Number::toString] where it is not worked out below. *)
Variable host_number_to_string : float -> string.

(** [Number::toString], and so [`${value}`]. *)
Definition number_to_string (x : float) : string :=
  match integer_value x with
  | Some n => show_integer n
  | None =>
      match Prim2SF x with
      | S754_nan => "NaN"
      | S754_infinity false => "Infinity"
      | S754_infinity true => "-Infinity"
      | _ => host_number_to_string x
      end
  end.

(** [Number.prototype.toFixed(fractionDigits)] *)
Definition toFixed (fractionDigits : nat) (x : float) : string :=
  match Prim2SF x with
  | S754_zero _ => point_before_last fractionDigits 0
  | S754_finite s m e =>
      let '(num, den) :=
        if (0 <=? e)%Z then ((Z.pos m * 2 ^ e)%Z, 1%Z)
        else (Z.pos m, (2 ^ (- e))%Z) in
      if (10 ^ 21 * den <=? num)%Z then number_to_string x
      else (if s then "-" else "")
           ++ point_before_last fractionDigits
                (nearest_scaled fractionDigits num den)
  | _ => number_to_string x
  end.

(** What [Number(m(value))] comes to when [m] is not a function of the
    table but something the lookup found on a prototype. *)
Inductive CallOutcome : Type :=
| Returns (result : float)
| Throws (error : string).    (* [error] is what [`${error}`] renders *)

(** [Number(conversions[fromUnit][toUnit](value))] when
    [conversions[fromUnit]] is a row of the table and [toUnit] names a
    member the row inherits. *)
Variable inherited_call : string -> string -> float -> CallOutcome.

(** [conversions[fromUnit][toUnit]] when [fromUnit] names a member that
    [conversions] inherits: [None] when the read is falsy, and otherwise
    what calling it on [value] and applying [Number] comes to. *)
Variable builtin_member : string -> string -> option (float -> CallOutcome).

(** [async ({ value, fromUnit, toUnit }) => { ... }] *)
Definition convert (value : float) (fromUnit toUnit : string) : ToolResult :=
  let converted (result : float) :=
    text_result (number_to_string value ++ " " ++ fromUnit ++ " = "
                 ++ toFixed 4 result ++ " " ++ toUnit) in
  let not_supported :=
    text_result ("Error: Conversion from " ++ fromUnit ++ " to " ++ toUnit
                 ++ " is not supported.") in
  let finish (o : CallOutcome) :=
    match o with
    | Returns result => converted result
    | Throws error => text_result ("Error during conversion: " ++ error)
    end in
  match obj_get (conversions binary64) fromUnit with
  | Own row =>
      match obj_get row toUnit with
      | Own f => converted (f value)
      | Inherited _ => finish (inherited_call fromUnit toUnit value)
      | Undefined => not_supported
      end
  | Inherited _ =>
      match builtin_member fromUnit toUnit with
      | Some call => finish (call value)
      | None => not_supported
      end
  | Undefined => not_supported
  end.

End Convert.

(** ** Text replacement, as the remaining tools and the loader use it *)

(** [s.replace(/pat/g, rep)] for a pattern [pat] of literal characters, at
    least one, and a replacement without [$]: the matches are taken from
    left to right and do not overlap. [skip] counts the characters of the
    current match that are still to be passed over. *)
Fixpoint replace_all_from (skip : nat) (pat rep s : string) : string :=
  match s with
  | EmptyString => EmptyString
  | String c rest =>
      match skip with
      | S skip' => replace_all_from skip' pat rep rest
      | O =>
          if String.prefix pat s
          then rep ++ replace_all_from (String.length pat - 1) pat rep rest
          else String c (replace_all_from 0 pat rep rest)
      end
  end.

Definition replace_all (pat rep s : string) : string :=
  replace_all_from 0 pat rep s.

Fixpoint string_drop (n : nat) (s : string) : string :=
  match n, s with
  | S n', String _ rest => string_drop n' rest
  | _, _ => s
  end.

(** [s.replace(pat, rep)] for a string pattern and a replacement without
    [$]: only the first occurrence is replaced. *)
Fixpoint replace_first (pat rep s : string) : string :=
  match s with
  | EmptyString => if String.prefix pat s then rep else EmptyString
  | String c rest =>
      if String.prefix pat s then rep ++ string_drop (String.length pat) s
      else String c (replace_first pat rep rest)
  end.

(** [s.endsWith(suffix)] *)
Definition endsWith (s suffix : string) : bool :=
  let n := String.length s in
  let m := String.length suffix in
  Nat.leb m n && String.eqb (substring (n - m) m s) suffix.

(** ** The [format-date] tool *)

(** A [Date] object as far as the tool observes it: what its getters return
    ([None] stands for NaN, which is what the getters of an invalid date
    return) and what [toISOString] returns ([None] when it throws its
    RangeError). *)
Record DateObject : Type := {
  getFullYear : option Z;
  getMonth : option Z;
  getDate : option Z;
  getHours : option Z;
  getMinutes : option Z;
  getSeconds : option Z;
  toISOString : option string
}.

(** [.toString()] on what a getter returned. *)
Definition getter_text (n : option Z) : string :=
  match n with
  | Some z => show_integer z
  | None => "NaN"
  end.

(** [s.padStart(targetLength, '0')] *)
Definition padStart_zero (targetLength : nat) (s : string) : string :=
  zeros (targetLength - String.length s) ++ s.

(** [function formatDate(date: Date, format: string): string] *)
Definition formatDate (date : DateObject) (format : string) : string :=
  let year := getter_text (getFullYear date) in
  let month :=
    padStart_zero 2 (getter_text (option_map (fun m => (m + 1)%Z) (getMonth date))) in
  let day := padStart_zero 2 (getter_text (getDate date)) in
  let hours := padStart_zero 2 (getter_text (getHours date)) in
  let minutes := padStart_zero 2 (getter_text (getMinutes date)) in
  let seconds := padStart_zero 2 (getter_text (getSeconds date)) in
  replace_all "ss" seconds
    (replace_all "mm" minutes
       (replace_all "HH" hours
          (replace_all "DD" day
             (replace_all "MM" month
                (replace_all "YYYY" year format))))).

Section FormatDate.

(** [new Date(date)], [new Date()], and what [`${error}`] renders for the
    RangeError of [toISOString]: all three are the engine's. *)
Variable newDate : string -> DateObject.
Variable now : DateObject.
Variable range_error : string.

(** [async ({ date, format }) => { try { ... } catch (error) { ... } }] *)
Definition format_date (date format : option string) : ToolResult :=
  let inputDate :=
    match date with
    | Some d => if truthy_string d then newDate d else now
    | None => now
    end in
  let formattedDate :=
    match format with
    | Some f =>
        if truthy_string f then Some (formatDate inputDate f)
        else toISOString inputDate
    | None => toISOString inputDate
    end in
  match formattedDate with
  | Some formatted => text_result formatted
  | None => text_result ("Error formatting date: " ++ range_error)
  end.

End FormatDate.

(** Formats made of the six patterns and of text in between. *)
Inductive Piece : Type :=
| Verbatim (s : string)
| Year | Month | Day | Hours | Minutes | Seconds.

Definition pattern_of (p : Piece) : string :=
  match p with
  | Verbatim s => s
  | Year => "YYYY" | Month => "MM" | Day => "DD"
  | Hours => "HH" | Minutes => "mm" | Seconds => "ss"
  end.

(** What a piece is expected to become. *)
Definition rendering_of (date : DateObject) (p : Piece) : string :=
  match p with
  | Verbatim s => s
  | Year => getter_text (getFullYear date)
  | Month =>
      padStart_zero 2
        (getter_text (option_map (fun m => (m + 1)%Z) (getMonth date)))
  | Day => padStart_zero 2 (getter_text (getDate date))
  | Hours => padStart_zero 2 (getter_text (getHours date))
  | Minutes => padStart_zero 2 (getter_text (getMinutes date))
  | Seconds => padStart_zero 2 (getter_text (getSeconds date))
  end.

Fixpoint concat_pieces (f : Piece -> string) (ps : list Piece) : string :=
  match ps with
  | [] => ""
  | p :: ps' => f p ++ concat_pieces f ps'
  end.

(** The letters the six patterns are made of. *)
Definition pattern_letter (c : ascii) : bool :=
  Ascii.eqb c "Y" || Ascii.eqb c "M" || Ascii.eqb c "D"
  || Ascii.eqb c "H" || Ascii.eqb c "m" || Ascii.eqb c "s".

Definition no_pattern_letter (s : string) : Prop :=
  Forall (fun c => pattern_letter c = false) (list_ascii_of_string s).

Definition plain_piece (p : Piece) : Prop :=
  match p with
  | Verbatim s => no_pattern_letter s
  | _ => True
  end.

(** [pat] occurs in [s]. *)
Fixpoint occurs (pat s : string) : bool :=
  String.prefix pat s
  || match s with
     | EmptyString => false
     | String _ rest => occurs pat rest
     end.

(** ** Loading the schemas *)

(** [schemas[tableName] = content] on an object literal, [content] being a
    string: an own property is created or overwritten, except under the
    name [__proto__], whose setter ignores a value that is not an object. *)
Definition assign_string (o : gmap string string) (k v : string)
    : gmap string string :=
  if String.eqb k "__proto__" then o else <[k := v]> o.

(** The body of [for (const file of schemaFiles) { ... }]: [readFile file]
    is what [fs.readFile(join(schemasDir, file), 'utf-8')] resolves to,
    [None] when it rejects, and the result is [None] when the loop is left
    by that rejection. *)
Fixpoint load_schema_files (readFile : string -> option string)
    (schemas : gmap string string) (schemaFiles : list string)
    : option (gmap string string) :=
  match schemaFiles with
  | [] => Some schemas
  | file :: rest =>
      if endsWith file ".sql" then
        let tableName := replace_first ".sql" "" file in
        match readFile file with
        | Some content =>
            load_schema_files readFile (assign_string schemas tableName content) rest
        | None => None
        end
      else load_schema_files readFile schemas rest
  end.

(** [async function loadDatabaseSchemas()]: [readdir] is what
    [fs.readdir(schemasDir)] resolves to, [None] when it rejects. *)
Definition loadDatabaseSchemas (readdir : option (list string))
    (readFile : string -> option string) : option (gmap string string) :=
  match readdir with
  | Some schemaFiles => load_schema_files readFile ∅ schemaFiles
  | None => None
  end.

(** [databaseSchemas] once
    [loadDatabaseSchemas().then(schemas => { databaseSchemas = schemas; ... }).catch(...)]
    has settled: it starts as [{}] and a rejection only logs. *)
Definition databaseSchemas (readdir : option (list string))
    (readFile : string -> option string) : gmap string string :=
  match loadDatabaseSchemas readdir readFile with
  | Some schemas => schemas
  | None => ∅
  end.

(** ** Vocabulary of the further properties *)

(** The pairs of units that the table of [convert] is written for. *)
Definition supported_pairs : list (string * string) :=
  [ ("celsius", "fahrenheit"); ("fahrenheit", "celsius");
    ("kilometers", "miles"); ("miles", "kilometers");
    ("kilograms", "pounds"); ("pounds", "kilograms") ].

(** The two decimal digits of a number from 0 to 99. *)
Definition two_digits (n : Z) : string :=
  String (ascii_of_nat (48 + Z.to_nat (n / 10)))
    (String (ascii_of_nat (48 + Z.to_nat (n mod 10))) EmptyString).

(** A date whose getters all return NaN and whose [toISOString] throws. *)
Definition invalid_date (d : DateObject) : Prop :=
  getFullYear d = None /\ getMonth d = None /\ getDate d = None
  /\ getHours d = None /\ getMinutes d = None /\ getSeconds d = None
  /\ toISOString d = None.

(** ** Sample inputs, for the examples of Part II *)

(** Two identifiers of the shape [randomUUID] produces. *)
Definition sample_uuid : string := "123e4567-e89b-42d3-a456-426614174000".
Definition other_uuid : string := "9b2e0c1a-5f4d-4c3b-8a7e-0123456789ab".

(** Request bodies reduced to what the router asks of them: whether the
    SDK's schema test takes them for an initialization request. *)
Definition initialize_flag (body : bool) : bool := body.

(** The state after one session was opened: a POST without header whose body
    is an initialization request, served by an SDK that drew [sample_uuid]. *)
Definition one_session : World :=
  fst (serve bool initialize_flag initial
         (POST bool None true [SessionInitialized sample_uuid])).

(** The state with a second session open beside the first. *)
Definition two_sessions : World :=
  fst (serve bool initialize_flag one_session
         (POST bool None true [SessionInitialized other_uuid])).

(** 5 March 2024, 14:07:09, as its getters report it. *)
Definition sample_date : DateObject :=
  {| getFullYear := Some 2024%Z; getMonth := Some 2%Z; getDate := Some 5%Z;
     getHours := Some 14%Z; getMinutes := Some 7%Z; getSeconds := Some 9%Z;
     toISOString := Some "2024-03-05T14:07:09.000Z" |}.

(** What [new Date("soon")] is. *)
Definition unparseable_date : DateObject :=
  {| getFullYear := None; getMonth := None; getDate := None;
     getHours := None; getMinutes := None; getSeconds := None;
     toISOString := None |}.

(** A directory in which every file holds its own name, and one in which
    [broken.sql] cannot be read. *)
Definition read_name (file : string) : option string := Some file.

Definition read_unless_broken (file : string) : option string :=
  if String.eqb file "broken.sql" then None else Some file.

(** An evaluator that is the reference evaluator where that is defined and
    throws elsewhere. *)
Definition reference_eval (source : string) : Completion :=
  match integer_arithmetic source with
  | Some n => Normal (show_integer n)
  | None => Abrupt
  end.

Arguments post {Body} isInitializeRequest w sessionId body reaction.
Arguments handleSessionRequest {Body} w sessionId reaction.
Arguments POST {Body} sessionId body reaction.
Arguments GET {Body} sessionId reaction.
Arguments DELETE {Body} sessionId reaction.
Arguments Closes {Body} transport.
Arguments serve {Body} isInitializeRequest w c.
Arguments call_ok {Body} c.
Arguments reachable {Body} isInitializeRequest w.

(* ===================================================================== *)
(** * Part II: properties                                                 *)
(* ===================================================================== *)

(** ** Identifiers *)

Lemma truthy_string_spec (s : string) : truthy_string s = true <-> s <> "".
Proof.
  unfold truthy_string. destruct s as [|c s]; simpl.
  - split; [discriminate | congruence].
  - split; [discriminate | reflexivity].
Qed.

Lemma is_uuid_truthy (s : string) : is_uuid s = true -> truthy_string s = true.
Proof. destruct s; [discriminate | reflexivity]. Qed.

Lemma is_uuid_not_inherited (s : string) :
  is_uuid s = true -> inherited_name s = false.
Proof.
  intros Hu. apply bool_decide_eq_false. intros Hin.
  unfold object_prototype_names in Hin.
  repeat (apply elem_of_cons in Hin as [-> | Hin]; [discriminate Hu |]).
  by apply elem_of_nil in Hin.
Qed.

(** ** Property reads on the store *)

Lemma obj_get_Own {V : Type} (o : gmap string V) (k : string) (v : V) :
  obj_get o k = Own v <-> o !! k = Some v.
Proof.
  unfold obj_get. destruct (o !! k) as [v'|].
  - split; congruence.
  - destruct (inherited_name k); split; discriminate.
Qed.

Lemma obj_get_Undefined {V : Type} (o : gmap string V) (k : string) :
  obj_get o k = Undefined <-> o !! k = None /\ inherited_name k = false.
Proof.
  unfold obj_get. destruct (o !! k) as [v'|].
  - split; [discriminate | intros [? _]; discriminate].
  - destruct (inherited_name k); split; try discriminate; try done.
    intros [_ ?]; discriminate.
Qed.

Lemma session_lookup_Own (w : World) (sessionId : option string) (t : nat) :
  session_lookup w sessionId = Own t ->
  exists id, sessionId = Some id /\ truthy_string id = true
             /\ transports w !! id = Some t.
Proof.
  destruct sessionId as [id|]; simpl; [|discriminate].
  destruct (truthy_string id) eqn:Ht; [|discriminate].
  intros H. apply obj_get_Own in H. eauto.
Qed.

Lemma session_lookup_bound (w : World) (id : string) (t : nat) :
  truthy_string id = true -> transports w !! id = Some t ->
  session_lookup w (Some id) = Own t.
Proof. intros Ht Hb. simpl. rewrite Ht. by apply obj_get_Own. Qed.

Lemma session_lookup_unbound (w : World) (id : string) :
  transports w !! id = None -> inherited_name id = false ->
  session_lookup w (Some id) = Undefined.
Proof.
  intros Hb Hi. simpl. destruct (truthy_string id); [|done].
  by apply obj_get_Undefined.
Qed.

Lemma session_lookup_no_session_id (w : World) (sessionId : option string) :
  no_session_id sessionId = true -> session_lookup w sessionId = Undefined.
Proof.
  destruct sessionId as [id|]; simpl; [|done].
  destruct (truthy_string id); [discriminate | done].
Qed.

(** ** The callbacks keep the store well formed *)

Lemma constructed_onclose (t : nat) (w : World) :
  constructed (onclose t w) = constructed w.
Proof.
  unfold onclose. destruct (sessionId_of w !! t) as [s|]; [|done].
  by destruct (truthy_string s).
Qed.

Lemma constructed_fire (t : nat) (w : World) (e : SdkEvent) :
  constructed (fire t w e) = constructed w.
Proof. destruct e; simpl; [done | apply constructed_onclose]. Qed.

Lemma constructed_handleRequest (t : nat) (reaction : list SdkEvent) (w : World) :
  constructed (handleRequest t reaction w) = constructed w.
Proof.
  unfold handleRequest. revert w.
  induction reaction as [|e reaction IH]; intros w; simpl; [done|].
  rewrite IH. apply constructed_fire.
Qed.

Lemma store_ok_initial : store_ok initial.
Proof. split; intros ? ? H; simpl in H; by rewrite lookup_empty in H. Qed.

Lemma store_ok_onclose (t : nat) (w : World) :
  store_ok w -> store_ok (onclose t w).
Proof.
  intros [Hs Hi]. unfold onclose.
  destruct (sessionId_of w !! t) as [s|]; [|by split].
  destruct (truthy_string s); [|by split].
  split; simpl; [|done].
  intros id t' H. apply lookup_delete_Some in H as [_ H]. eauto.
Qed.

Lemma store_ok_fire (t : nat) (w : World) (e : SdkEvent) :
  store_ok w -> t < constructed w -> generated_ok e = true ->
  store_ok (fire t w e).
Proof.
  intros [Hs Hi] Hlt Hg. destruct e as [g|]; simpl in *.
  - split; simpl.
    + intros id t' H. apply lookup_insert_Some in H as [[<- <-] | [_ H]]; eauto.
    + intros t' id H. apply lookup_insert_Some in H as [[<- <-] | [_ H]]; eauto.
  - by apply store_ok_onclose.
Qed.

Lemma store_ok_handleRequest (t : nat) (reaction : list SdkEvent) (w : World) :
  store_ok w -> t < constructed w -> forallb generated_ok reaction = true ->
  store_ok (handleRequest t reaction w).
Proof.
  unfold handleRequest. revert w.
  induction reaction as [|e reaction IH]; intros w Hok Hlt Hg; simpl; [done|].
  simpl in Hg. apply andb_true_iff in Hg as [He Hg].
  apply IH; [by apply store_ok_fire | by rewrite constructed_fire | done].
Qed.

Lemma store_ok_allocate (w : World) :
  store_ok w ->
  store_ok {| transports := transports w; sessionId_of := sessionId_of w;
              constructed := S (constructed w) |}.
Proof.
  intros [Hs Hi]. split; simpl; [|done].
  intros id t H. destruct (Hs id t H). split; [done | lia].
Qed.

Lemma store_ok_post {Body : Type} (isInit : Body -> bool) (w : World)
    (sessionId : option string) (body : Body) (reaction : list SdkEvent) :
  store_ok w -> forallb generated_ok reaction = true ->
  store_ok (fst (post isInit w sessionId body reaction)).
Proof.
  intros Hok Hg. unfold post.
  destruct (truthy_lookup (session_lookup w sessionId)).
  - destruct (session_lookup w sessionId) as [t| |] eqn:Hl; simpl; try done.
    apply session_lookup_Own in Hl as (id & _ & _ & Hb).
    apply store_ok_handleRequest; [done | | done].
    destruct Hok as [Hs _]. by destruct (Hs id t Hb).
  - destruct (no_session_id sessionId && isInit body); simpl; [|done].
    apply store_ok_handleRequest; [by apply store_ok_allocate | simpl; lia | done].
Qed.

Lemma store_ok_handleSessionRequest {Body : Type} (w : World)
    (sessionId : option string) (reaction : list SdkEvent) :
  store_ok w -> forallb generated_ok reaction = true ->
  store_ok (fst (handleSessionRequest (Body := Body) w sessionId reaction)).
Proof.
  intros Hok Hg. unfold handleSessionRequest.
  destruct (no_session_id sessionId
            || negb (truthy_lookup (session_lookup w sessionId))); simpl; [done|].
  destruct (session_lookup w sessionId) as [t| |] eqn:Hl; simpl; try done.
  apply session_lookup_Own in Hl as (id & _ & _ & Hb).
  apply store_ok_handleRequest; [done | | done].
  destruct Hok as [Hs _]. by destruct (Hs id t Hb).
Qed.

(** In every state the server can be in, the store holds generated
    identifiers only, bound to transports that were constructed. *)
Lemma reachable_store_ok {Body : Type} (isInit : Body -> bool) (w : World) :
  reachable isInit w -> store_ok w.
Proof.
  induction 1 as [|w c _ IH Hc]; [apply store_ok_initial|].
  destruct c as [sid body reaction | sid reaction | sid reaction | t]; simpl in *.
  - pose proof (store_ok_post isInit w sid body reaction IH Hc) as H.
    by destruct (post isInit w sid body reaction).
  - pose proof (store_ok_handleSessionRequest (Body := Body) w sid reaction IH Hc) as H.
    by destruct (handleSessionRequest w sid reaction).
  - pose proof (store_ok_handleSessionRequest (Body := Body) w sid reaction IH Hc) as H.
    by destruct (handleSessionRequest w sid reaction).
  - by apply store_ok_onclose.
Qed.

(** ** The routes *)

Lemma post_continue {Body : Type} (isInit : Body -> bool) (w : World)
    (id : string) (t : nat) (body : Body) (reaction : list SdkEvent) :
  truthy_string id = true -> transports w !! id = Some t ->
  post isInit w (Some id) body reaction
  = (handleRequest t reaction w, Delegated t (Some body)).
Proof.
  intros Ht Hb. unfold post.
  by rewrite (session_lookup_bound w id t Ht Hb).
Qed.

Lemma post_initiate {Body : Type} (isInit : Body -> bool) (w : World)
    (sessionId : option string) (body : Body) (reaction : list SdkEvent) :
  no_session_id sessionId = true -> isInit body = true ->
  post isInit w sessionId body reaction
  = (handleRequest (constructed w) reaction
       {| transports := transports w; sessionId_of := sessionId_of w;
          constructed := S (constructed w) |},
     Delegated (constructed w) (Some body)).
Proof.
  intros Hn Hi. unfold post.
  rewrite (session_lookup_no_session_id w sessionId Hn). simpl.
  by rewrite Hn, Hi.
Qed.

Lemma handleSessionRequest_rejects {Body : Type} (w : World)
    (sessionId : option string) (reaction : list SdkEvent) :
  session_lookup w sessionId = Undefined ->
  handleSessionRequest (Body := Body) w sessionId reaction
  = (w, Responded 400 invalid_or_missing).
Proof.
  intros Hl. unfold handleSessionRequest. rewrite Hl. simpl.
  by rewrite orb_true_r.
Qed.

Lemma handleSessionRequest_delegates {Body : Type} (w : World)
    (id : string) (t : nat) (reaction : list SdkEvent) :
  truthy_string id = true -> transports w !! id = Some t ->
  handleSessionRequest (Body := Body) w (Some id) reaction
  = (handleRequest t reaction w, Delegated t None).
Proof.
  intros Ht Hb. unfold handleSessionRequest.
  rewrite (session_lookup_bound w id t Ht Hb). simpl. by rewrite Ht.
Qed.

(** An identifier that names a member of [Object.prototype] passes the
    guard of either handler although the store has no entry for it, and the
    call of [handleRequest] on what was read then fails. *)
Lemma inherited_name_throws {Body : Type} (isInit : Body -> bool) (w : World)
    (id : string) (body : Body) (reaction : list SdkEvent) :
  store_ok w -> inherited_name id = true ->
  transports w !! id = None
  /\ post isInit w (Some id) body reaction = (w, Threw not_a_function)
  /\ handleSessionRequest (Body := Body) w (Some id) reaction
     = (w, Threw not_a_function).
Proof.
  intros [Hs _] Hi.
  assert (transports w !! id = None) as Hb.
  { destruct (transports w !! id) as [t|] eqn:Hb; [|done].
    destruct (Hs id t Hb) as [Hu _].
    apply is_uuid_not_inherited in Hu. congruence. }
  assert (truthy_string id = true) as Ht.
  { destruct id; [discriminate Hi | reflexivity]. }
  assert (session_lookup w (Some id) = Inherited id) as Hl.
  { simpl. rewrite Ht. unfold obj_get. by rewrite Hb, Hi. }
  split; [done|]. split.
  - unfold post. by rewrite Hl.
  - unfold handleSessionRequest. rewrite Hl. simpl. by rewrite Ht.
Qed.

(** C1. For every POST /mcp call (in any state the server can reach): when
    the session-identifier header carries an identifier bound in the store,
    the body is handed to the transport bound to it and no transport is
    constructed; when the header is absent and the body is an initialization
    request, a transport is constructed (one that nothing in the store
    refers to), it is handed the body, and when the SDK, serving that
    request, draws an identifier from the generator and calls
    [onsessioninitialized], the store binds that identifier to the new
    transport and keeps every other binding. *)
Theorem post_continues_or_initiates {Body : Type} (isInit : Body -> bool)
    (w : World) (body : Body) (reaction : list SdkEvent) :
  reachable isInit w ->
  (forall id transport,
     transports w !! id = Some transport ->
     post isInit w (Some id) body reaction
     = (handleRequest transport reaction w, Delegated transport (Some body))
     /\ constructed (fst (post isInit w (Some id) body reaction))
        = constructed w)
  /\
  (isInit body = true ->
   let transport := constructed w in
   let w' := fst (post isInit w None body reaction) in
   snd (post isInit w None body reaction) = Delegated transport (Some body)
   /\ constructed w' = S (constructed w)
   /\ (forall id t, transports w !! id = Some t -> t <> transport)
   /\ (forall generated,
         is_uuid generated = true ->
         reaction = [SessionInitialized generated] ->
         transports w' !! generated = Some transport
         /\ sessionId_of w' !! transport = Some generated
         /\ forall id, id <> generated ->
                       transports w' !! id = transports w !! id)).
Proof.
  intros Hr. pose proof (reachable_store_ok isInit w Hr) as [Hs Hi].
  split.
  - intros id t Hb. destruct (Hs id t Hb) as [Hu _].
    rewrite (post_continue isInit w id t body reaction
               (is_uuid_truthy id Hu) Hb).
    split; [done|]. simpl. apply constructed_handleRequest.
  - intros Hinit. cbv zeta.
    rewrite (post_initiate isInit w None body reaction eq_refl Hinit). simpl.
    split; [done|]. split; [apply constructed_handleRequest|].
    split.
    + intros id t Hb. destruct (Hs id t Hb) as [_ Hlt]. lia.
    + intros generated _ ->. simpl.
      split; [apply lookup_insert_eq|].
      split; [apply lookup_insert_eq|].
      intros id Hne. by apply lookup_insert_ne.
Qed.

(** C2, as amended. For every POST /mcp call where the header carries a
    non-empty identifier that the store does not bind and that is not the
    name of a member the store object inherits, or where the header is
    absent or empty and the body is not an initialization request: the
    response is status 400 with the error envelope of code -32000 and
    message "Bad Request: No valid session ID provided", no transport is
    called or constructed, and the store is unchanged. *)
Theorem post_rejects {Body : Type} (isInit : Body -> bool) (w : World)
    (sessionId : option string) (body : Body) (reaction : list SdkEvent) :
  (exists id, sessionId = Some id /\ id <> ""
              /\ transports w !! id = None /\ inherited_name id = false)
  \/ (no_session_id sessionId = true /\ isInit body = false) ->
  post isInit w sessionId body reaction
  = (w, Responded 400
          (JsonRpcError (-32000) "Bad Request: No valid session ID provided")).
Proof.
  intros [(id & -> & Hne & Hb & Hi) | [Hn Hinit]]; unfold post.
  - rewrite (session_lookup_unbound w id Hb Hi). simpl.
    apply truthy_string_spec in Hne. by rewrite Hne.
  - rewrite (session_lookup_no_session_id w sessionId Hn). simpl.
    by rewrite Hinit, andb_false_r.
Qed.

(** C3, as amended. Registration of a generated identifier is a plain
    assignment: afterwards the identifier is bound to the transport being
    registered whatever was bound before, with no check and no Conflict;
    every other identifier keeps its binding; an identifier is bound to at
    most one transport; and when the identifier was not in the store, no
    binding that existed is replaced. *)
Theorem registration_assigns (w : World) (transport : nat) (sessionId : string) :
  is_uuid sessionId = true ->
  let w' := onsessioninitialized transport sessionId w in
  transports w' !! sessionId = Some transport
  /\ (forall id, id <> sessionId -> transports w' !! id = transports w !! id)
  /\ (forall id t1 t2,
        transports w' !! id = Some t1 -> transports w' !! id = Some t2 ->
        t1 = t2)
  /\ (transports w !! sessionId = None ->
      forall id t, transports w !! id = Some t -> transports w' !! id = Some t).
Proof.
  intros _. simpl. split; [apply lookup_insert_eq|].
  split; [intros id Hne; by apply lookup_insert_ne|].
  split; [congruence|].
  intros Hfresh id t Hb.
  rewrite lookup_insert_ne; [done | congruence].
Qed.

(** C4. When a transport that holds a session identifier closes (in any
    state the server can reach), [onclose] removes that identifier from the
    store and leaves every other binding alone; closing again changes
    nothing, as does closing when the identifier is already absent; and a
    later termination request for the closed identifier is answered, with
    the store untouched and without an exception, by status 400 and
    "Invalid or missing session ID", the very answer given for an
    identifier that was never issued. *)
Theorem close_removes_once {Body : Type} (isInit : Body -> bool) (w : World)
    (transport : nat) (id : string) (reaction : list SdkEvent) :
  reachable isInit w ->
  sessionId_of w !! transport = Some id ->
  let w' := onclose transport w in
  transports w' !! id = None
  /\ (forall id', id' <> id -> transports w' !! id' = transports w !! id')
  /\ onclose transport w' = w'
  /\ (transports w !! id = None -> transports w' = transports w)
  /\ handleSessionRequest (Body := Body) w' (Some id) reaction
     = (w', Responded 400 (PlainText "Invalid or missing session ID"))
  /\ (forall never_issued,
        obj_get (transports w') never_issued = Undefined ->
        handleSessionRequest (Body := Body) w' (Some never_issued) reaction
        = handleSessionRequest w' (Some id) reaction).
Proof.
  intros Hr Hid. pose proof (reachable_store_ok isInit w Hr) as [_ Hi].
  pose proof (Hi transport id Hid) as Hu.
  pose proof (is_uuid_truthy id Hu) as Ht.
  cbv zeta.
  set (w' := {| transports := delete id (transports w);
                sessionId_of := sessionId_of w;
                constructed := constructed w |}).
  replace (onclose transport w) with w'
    by (unfold onclose; by rewrite Hid, Ht).
  assert (transports w' !! id = None) as Hgone by apply lookup_delete_eq.
  assert (handleSessionRequest (Body := Body) w' (Some id) reaction
          = (w', Responded 400 invalid_or_missing)) as Hrej.
  { apply handleSessionRequest_rejects.
    apply session_lookup_unbound; [done | by apply is_uuid_not_inherited]. }
  split; [done|].
  split; [intros id' Hne; by apply lookup_delete_ne|].
  split.
  { unfold onclose. simpl. rewrite Hid, Ht. unfold w'. simpl.
    f_equal. by apply delete_id. }
  split; [intros Habsent; simpl; by apply delete_id|].
  split; [done|].
  intros never_issued Hnever. rewrite Hrej.
  apply handleSessionRequest_rejects.
  simpl. by destruct (truthy_string never_issued).
Qed.

(** C5, at the failing input. A GET or DELETE /mcp call whose header is
    [constructor], an identifier the store does not bind, is not answered
    with status 400: the guard reads [Object.prototype.constructor] off the
    store object, takes it for a transport, and the call of its
    [handleRequest] throws. *)
Theorem handleSessionRequest_constructor {Body : Type} (reaction : list SdkEvent) :
  transports initial !! "constructor" = None
  /\ handleSessionRequest (Body := Body) initial (Some "constructor") reaction
     = (initial, Threw "TypeError: transport.handleRequest is not a function").
Proof. split; reflexivity. Qed.

(** ** The [calculate] tool *)

Lemma in_class_spec (c : ascii) :
  in_class c = true <-> In c (list_ascii_of_string "-()*+/0123456789.").
Proof.
  assert (in_class c
          = existsb (Ascii.eqb c) (list_ascii_of_string "-()*+/0123456789."))
    as -> by (destruct c as [[] [] [] [] [] [] [] []]; reflexivity).
  rewrite existsb_exists. split.
  - intros (x & Hin & Heq). apply Ascii.eqb_eq in Heq. by subst.
  - intros Hin. exists c. split; [done | apply Ascii.eqb_refl].
Qed.

Lemma replace_disallowed_filter (expression : string) :
  list_ascii_of_string (replace_disallowed expression)
  = List.filter in_class (list_ascii_of_string expression).
Proof.
  induction expression as [|c rest IH]; simpl; [done|].
  destruct (in_class c); simpl; by rewrite IH.
Qed.

Lemma replace_disallowed_in_class (expression : string) :
  Forall (fun c => in_class c = true)
         (list_ascii_of_string (replace_disallowed expression)).
Proof.
  induction expression as [|c rest IH]; simpl; [constructor|].
  destruct (in_class c) eqn:Hc; simpl; [by constructor | done].
Qed.

(** Text that is already within the class goes through unchanged. *)
Lemma replace_disallowed_id (expression : string) :
  Forall (fun c => in_class c = true) (list_ascii_of_string expression) ->
  replace_disallowed expression = expression.
Proof.
  induction expression as [|c rest IH]; simpl; [done|].
  intros H. inversion H as [|? ? Hc Hrest]; subst.
  rewrite Hc. f_equal. by apply IH.
Qed.

(** C6. For every input of the calculate tool, what the tool evaluates is
    the stripped text and nothing else: its result is "Result: " followed
    by the value of the stripped text, or the error text when evaluating
    the stripped text throws. The stripped text is the input with every
    character outside [- ( ) * + / 0-9 .] removed and the others kept in
    order, so it consists of characters of that set only, and the tool's
    result depends on the evaluator only through what it does on such
    text; for "import os" nothing is left, and what is evaluated is the
    empty text. *)
Theorem calculate_evaluates_stripped_text (expression : string) :
  (forall eval : string -> Completion,
     calculate eval expression
     = match eval (replace_disallowed expression) with
       | Normal rendered => text_result ("Result: " ++ rendered)
       | Abrupt =>
           text_result
             ("Error: Could not evaluate expression '" ++ expression ++ "'")
       end)
  /\ list_ascii_of_string (replace_disallowed expression)
     = List.filter in_class (list_ascii_of_string expression)
  /\ Forall (fun c => In c (list_ascii_of_string "-()*+/0123456789."))
            (list_ascii_of_string (replace_disallowed expression))
  /\ (forall eval eval' : string -> Completion,
        (forall source,
           Forall (fun c => In c (list_ascii_of_string "-()*+/0123456789."))
                  (list_ascii_of_string source) ->
           eval source = eval' source) ->
        calculate eval expression = calculate eval' expression)
  /\ replace_disallowed "import os" = ""
  /\ (forall eval, calculate eval "import os"
                   = match eval "" with
                     | Normal rendered => text_result ("Result: " ++ rendered)
                     | Abrupt =>
                         text_result
                           "Error: Could not evaluate expression 'import os'"
                     end).
Proof.
  assert (Forall (fun c => In c (list_ascii_of_string "-()*+/0123456789."))
                 (list_ascii_of_string (replace_disallowed expression))) as Hall.
  { eapply List.Forall_impl; [|apply replace_disallowed_in_class].
    intros c Hc. by apply in_class_spec. }
  split; [intros eval; reflexivity|].
  split; [apply replace_disallowed_filter|].
  split; [done|].
  split; [|split; [reflexivity | intros eval; reflexivity]].
  intros eval eval' Hagree. unfold calculate. by rewrite (Hagree _ Hall).
Qed.

Lemma safe_integer_ok (n : Z) :
  (Z.abs n <= 2 ^ 53)%Z -> safe_integer n = Some n.
Proof.
  intros H. unfold safe_integer.
  destruct (Z.leb_spec (Z.abs n) (2 ^ 53)); [done | lia].
Qed.

(** One step of each level of the descent. *)
Lemma additive_step (fuel : nat) (ts : list token) :
  additive (S fuel) ts
  = match multiplicative fuel ts with
    | Some (v, rest) => additive_rest fuel v rest
    | None => None
    end.
Proof. reflexivity. Qed.

Lemma multiplicative_step (fuel : nat) (ts : list token) :
  multiplicative (S fuel) ts
  = match unary fuel ts with
    | Some (v, rest) => multiplicative_rest fuel v rest
    | None => None
    end.
Proof. reflexivity. Qed.

Lemma unary_literal (fuel : nat) (n : Z) (ts : list token) :
  (Z.abs n <= 2 ^ 53)%Z -> unary (S fuel) (TNum n :: ts) = Some (n, ts).
Proof.
  intros Hn. change (unary (S fuel) (TNum n :: ts))
    with (safe_integer n ≫= fun s => Some (s, ts)).
  by rewrite (safe_integer_ok n Hn).
Qed.

Lemma additive_rest_plus (fuel : nat) (acc : Z) (ts : list token) :
  additive_rest (S fuel) acc (TPlus :: ts)
  = match multiplicative fuel ts with
    | Some (v, rest) =>
        match safe_integer (acc + v) with
        | Some s => additive_rest fuel s rest
        | None => None
        end
    | None => None
    end.
Proof. reflexivity. Qed.

Lemma additive_rest_end (fuel : nat) (acc : Z) :
  additive_rest (S fuel) acc [] = Some (acc, []).
Proof. reflexivity. Qed.

Lemma multiplicative_rest_star (fuel : nat) (acc : Z) (ts : list token) :
  multiplicative_rest (S fuel) acc (TStar :: ts)
  = match unary fuel ts with
    | Some (v, rest) =>
        match safe_integer (acc * v) with
        | Some s => multiplicative_rest fuel s rest
        | None => None
        end
    | None => None
    end.
Proof. reflexivity. Qed.

Lemma multiplicative_rest_plus (fuel : nat) (acc : Z) (ts : list token) :
  multiplicative_rest (S fuel) acc (TPlus :: ts) = Some (acc, TPlus :: ts).
Proof. reflexivity. Qed.

Lemma multiplicative_rest_end (fuel : nat) (acc : Z) :
  multiplicative_rest (S fuel) acc [] = Some (acc, []).
Proof. reflexivity. Qed.

(** Multiplication binds tighter than addition, whatever the literals. *)
Lemma multiplication_binds_tighter (a b c : Z) :
  (0 <= a <= 2 ^ 26)%Z -> (0 <= b <= 2 ^ 26)%Z -> (0 <= c <= 2 ^ 26)%Z ->
  additive 24 [TNum a; TPlus; TNum b; TStar; TNum c]
  = Some ((a + b * c)%Z, []).
Proof.
  intros Ha Hb Hc.
  assert (0 <= b * c <= 2 ^ 52)%Z as Hbc.
  { change (2 ^ 52)%Z with (2 ^ 26 * 2 ^ 26)%Z. nia. }
  change (2 ^ 26)%Z with 67108864%Z in *.
  change (2 ^ 52)%Z with 4503599627370496%Z in *.
  assert (forall n, (0 <= n <= 9007199254740992)%Z -> (Z.abs n <= 2 ^ 53)%Z)
    as Hsafe.
  { intros n Hn. change (2 ^ 53)%Z with 9007199254740992%Z. lia. }
  rewrite additive_step, multiplicative_step.
  rewrite unary_literal by (apply Hsafe; lia).
  rewrite multiplicative_rest_plus, additive_rest_plus, multiplicative_step.
  rewrite unary_literal by (apply Hsafe; lia).
  rewrite multiplicative_rest_star.
  rewrite unary_literal by (apply Hsafe; lia).
  rewrite (safe_integer_ok (b * c)) by (apply Hsafe; lia).
  rewrite multiplicative_rest_end.
  rewrite (safe_integer_ok (a + b * c)) by (apply Hsafe; lia).
  apply additive_rest_end.
Qed.


(** ** The [convert] tool *)


(** A pair of units with no entry in the table is answered with the "not
    supported" text, provided neither unit is the name of a member that
    object literals inherit. *)
Lemma convert_not_supported
    (host_number_to_string : float -> string)
    (inherited_call : string -> string -> float -> CallOutcome)
    (builtin_member : string -> string -> option (float -> CallOutcome))
    (value : float) (fromUnit toUnit : string) :
  entry binary64 fromUnit toUnit = None ->
  inherited_name fromUnit = false -> inherited_name toUnit = false ->
  convert host_number_to_string inherited_call builtin_member
    value fromUnit toUnit
  = text_result ("Error: Conversion from " ++ fromUnit ++ " to " ++ toUnit
                 ++ " is not supported.").
Proof.
  unfold entry, convert, obj_get. intros He Hf Ht.
  destruct (conversions binary64 !! fromUnit) as [row|]; simpl in He.
  - rewrite He, Ht. reflexivity.
  - rewrite Hf. reflexivity.
Qed.

(** C9, at the failing input. convert(1, "celsius", "constructor"): the
    table has no entry for the pair, yet the answer is not the "not
    supported" text. The guard reads [Object.prototype.constructor] off
    the row for celsius and calls it; the answer is the conversion line
    built from what the call returned, or, had the call thrown, the
    "Error during conversion" text of the [catch] clause. *)
Theorem convert_celsius_constructor
    (host_number_to_string : float -> string)
    (inherited_call : string -> string -> float -> CallOutcome)
    (builtin_member : string -> string -> option (float -> CallOutcome)) :
  entry binary64 "celsius" "constructor" = None
  /\ convert host_number_to_string inherited_call builtin_member
       1%float "celsius" "constructor"
     = match inherited_call "celsius" "constructor" 1%float with
       | Returns result =>
           text_result ("1 celsius = " ++ toFixed host_number_to_string 4 result
                        ++ " constructor")
       | Throws error => text_result ("Error during conversion: " ++ error)
       end
  /\ convert host_number_to_string inherited_call builtin_member
       1%float "celsius" "constructor"
     <> text_result
          "Error: Conversion from celsius to constructor is not supported.".
Proof.
  assert (convert host_number_to_string inherited_call builtin_member
            1%float "celsius" "constructor"
          = match inherited_call "celsius" "constructor" 1%float with
            | Returns result =>
                text_result ("1 celsius = "
                             ++ toFixed host_number_to_string 4 result
                             ++ " constructor")
            | Throws error => text_result ("Error during conversion: " ++ error)
            end) as Hc by reflexivity.
  split; [reflexivity|]. split; [exact Hc|].
  rewrite Hc.
  destruct (inherited_call "celsius" "constructor" 1%float); discriminate.
Qed.

Lemma Z_upto_In (count : nat) (from n : Z) :
  (from <= n < from + Z.of_nat count)%Z -> In n (Z_upto count from).
Proof.
  revert from. induction count as [|count IH]; intros from Hn; [lia|].
  cbn [Z_upto]. destruct (Z.eq_dec from n) as [->|Hne]; [by left|].
  right. apply IH. lia.
Qed.

(** A check that holds on the whole range holds at each of its points. *)
Lemma forallb_Z_range (P : Z -> bool) (lo hi n : Z) :
  forallb P (Z_range lo hi) = true -> (lo <= n <= hi)%Z -> P n = true.
Proof.
  intros Hall Hn. apply (proj1 (forallb_forall P (Z_range lo hi)) Hall).
  apply Z_upto_In. lia.
Qed.



(* ===================================================================== *)
(** * Part III: the properties at sample inputs                           *)
(* ===================================================================== *)

Lemma one_session_reachable : reachable initialize_flag one_session.
Proof.
  apply (reachable_serve bool initialize_flag initial
           (POST None true [SessionInitialized sample_uuid])).
  - apply reachable_initial.
  - reflexivity.
Defined.

(** With one session open: a POST carrying its identifier goes to its
    transport, and a POST without header that initializes constructs the
    second transport and registers it under the identifier drawn. *)
Lemma post_continues_or_initiates_sample :
  reachable initialize_flag one_session
  /\ post initialize_flag one_session (Some sample_uuid) false []
     = (one_session, Delegated 0 (Some false))
  /\ transports
       (fst (post initialize_flag one_session None true
               [SessionInitialized other_uuid])) !! other_uuid
     = Some 1.
Proof.
  split; [exact one_session_reachable|]. split.
  - destruct (post_continues_or_initiates initialize_flag one_session false []
                one_session_reachable) as [Hcontinue _].
    destruct (Hcontinue sample_uuid 0) as [Hpost _];
      [vm_compute; reflexivity | exact Hpost].
  - destruct (post_continues_or_initiates initialize_flag one_session true
                [SessionInitialized other_uuid] one_session_reachable)
      as [_ Hinitiate].
    destruct (Hinitiate eq_refl) as (_ & _ & _ & Hregistered).
    destruct (Hregistered other_uuid eq_refl eq_refl) as [Hbound _].
    exact Hbound.
Defined.

(** An identifier the store does not know is rejected even when the body is
    an initialization request. *)
Lemma post_rejects_sample :
  transports initial !! sample_uuid = None
  /\ post initialize_flag initial (Some sample_uuid) true
       [SessionInitialized other_uuid]
     = (initial,
        Responded 400
          (JsonRpcError (-32000) "Bad Request: No valid session ID provided")).
Proof.
  split; [reflexivity|].
  apply (post_rejects initialize_flag initial (Some sample_uuid) true
           [SessionInitialized other_uuid]).
  left. exists sample_uuid.
  split; [reflexivity|]. split; [discriminate|].
  split; [reflexivity | vm_compute; reflexivity].
Defined.

(** C2 as stated fails: the header is present (and empty), the identifier
    it carries is not bound in the store, and the body is an initialization
    request; the call is not rejected but opens a session. *)
Lemma post_empty_header_initiates :
  transports initial !! "" = None
  /\ post initialize_flag initial (Some "") true
       [SessionInitialized sample_uuid]
     <> (initial,
         Responded 400
           (JsonRpcError (-32000) "Bad Request: No valid session ID provided"))
  /\ snd (post initialize_flag initial (Some "") true
            [SessionInitialized sample_uuid])
     = Delegated 0 (Some true)
  /\ transports
       (fst (post initialize_flag initial (Some "") true
               [SessionInitialized sample_uuid])) !! sample_uuid
     = Some 0.
Proof.
  split; [reflexivity|]. split; [|split; vm_compute; reflexivity].
  intros H. apply (f_equal snd) in H. vm_compute in H. discriminate H.
Qed.

(** Registering a second identifier next to the first one. *)
Lemma registration_assigns_sample :
  is_uuid other_uuid = true
  /\ transports one_session !! other_uuid = None
  /\ transports (onsessioninitialized 1 other_uuid one_session) !! other_uuid
     = Some 1
  /\ transports (onsessioninitialized 1 other_uuid one_session) !! sample_uuid
     = Some 0.
Proof.
  destruct (registration_assigns one_session 1 other_uuid eq_refl)
    as (Hnew & _ & _ & Hkept).
  assert (transports one_session !! other_uuid = None) as Hfresh
    by (vm_compute; reflexivity).
  split; [reflexivity|]. split; [exact Hfresh|]. split; [exact Hnew|].
  apply (Hkept Hfresh sample_uuid 0). vm_compute; reflexivity.
Defined.

(** C3 as stated fails: when the generator returns an identifier that is
    in the store, registration neither checks nor reports a Conflict; the
    binding of the first transport is replaced by the second. *)
Lemma registration_replaces_binding :
  transports one_session !! sample_uuid = Some 0
  /\ transports (onsessioninitialized 1 sample_uuid one_session) !! sample_uuid
     = Some 1
  /\ reachable initialize_flag
       (fst (serve initialize_flag one_session
               (POST None true [SessionInitialized sample_uuid])))
  /\ transports
       (fst (serve initialize_flag one_session
               (POST None true [SessionInitialized sample_uuid])))
     !! sample_uuid
     = Some 1.
Proof.
  split; [vm_compute; reflexivity|]. split; [vm_compute; reflexivity|].
  split; [|vm_compute; reflexivity].
  apply reachable_serve; [exact one_session_reachable | reflexivity].
Qed.

(** Closing the transport of the one open session. *)
Lemma close_removes_once_sample :
  reachable initialize_flag one_session
  /\ sessionId_of one_session !! 0 = Some sample_uuid
  /\ transports (onclose 0 one_session) !! sample_uuid = None
  /\ onclose 0 (onclose 0 one_session) = onclose 0 one_session
  /\ handleSessionRequest (Body := bool) (onclose 0 one_session)
       (Some sample_uuid) [TransportClosed]
     = (onclose 0 one_session,
        Responded 400 (PlainText "Invalid or missing session ID")).
Proof.
  assert (sessionId_of one_session !! 0 = Some sample_uuid) as Hid
    by (vm_compute; reflexivity).
  destruct (close_removes_once initialize_flag one_session 0 sample_uuid
              [TransportClosed] one_session_reachable Hid)
    as (Hgone & _ & Hagain & _ & Hrejected & _).
  split; [exact one_session_reachable|]. split; [exact Hid|].
  split; [exact Hgone|]. split; [exact Hagain | exact Hrejected].
Defined.


(** Two evaluators that differ outside the class are told apart by no
    input of the tool. *)
Lemma calculate_evaluates_stripped_text_sample :
  replace_disallowed "price: 2 + x2" = "2+2"
  /\ calculate reference_eval "price: 2 + x2" = text_result "Result: 4"
  /\ calculate reference_eval "price: 2 + x2"
     = calculate (fun source => reference_eval (replace_disallowed source))
         "price: 2 + x2".
Proof.
  destruct (calculate_evaluates_stripped_text "price: 2 + x2")
    as (Hcalc & _ & _ & Hsame & _).
  split; [reflexivity|].
  split; [rewrite (Hcalc reference_eval); reflexivity|].
  apply (Hsame reference_eval
           (fun source => reference_eval (replace_disallowed source))).
  intros source Hclass. f_equal. symmetry. apply replace_disallowed_id.
  eapply List.Forall_impl; [|exact Hclass].
  intros c Hc. simpl. by apply in_class_spec.
Defined.




(* ===================================================================== *)
(** * Part IV: further properties of the handlers and tools               *)
(* ===================================================================== *)

(** ** The session store *)

Lemma uuid_shape_length (i : nat) (cs : list ascii) :
  uuid_shape i cs = true -> i + length cs = 36.
Proof.
  revert i. induction cs as [|c cs IH]; intros i H; simpl in *.
  - apply Nat.eqb_eq in H. lia.
  - apply andb_true_iff in H as [_ H]. apply IH in H. lia.
Qed.

Lemma length_list_ascii_of_string (s : string) :
  length (list_ascii_of_string s) = String.length s.
Proof. induction s as [|c s IH]; simpl; [done | by rewrite IH]. Qed.

(** X1. In every state the server can reach, an identifier bound in the
    store is one the generator produced: it has the 36 characters of a
    UUID, so it is neither empty nor the name of a member inherited from
    [Object.prototype], and the transport it is bound to is one of those
    constructed so far. *)
Theorem store_holds_generated_identifiers {Body : Type} (isInit : Body -> bool)
    (w : World) (id : string) (t : nat) :
  reachable isInit w ->
  transports w !! id = Some t ->
  is_uuid id = true /\ String.length id = 36 /\ id <> ""
  /\ inherited_name id = false /\ t < constructed w.
Proof.
  intros Hr Hb. destruct (reachable_store_ok isInit w Hr) as [Hs _].
  destruct (Hs id t Hb) as [Hu Hlt].
  split; [done|]. split.
  { rewrite <- length_list_ascii_of_string.
    apply (uuid_shape_length 0). exact Hu. }
  split; [by apply truthy_string_spec, is_uuid_truthy|].
  split; [by apply is_uuid_not_inherited | done].
Qed.

(** X2. A call constructs a transport only when it is a POST whose session
    identifier is absent or empty and whose body is an initialization
    request, and then exactly one, whatever the SDK does with the request;
    and a call that the handler answers itself, or that throws, leaves the
    store and the transports as they were. *)
Theorem calls_construct_on_initiation_only {Body : Type} (isInit : Body -> bool)
    (w : World) (c : Call Body) :
  (constructed (fst (serve isInit w c)) = S (constructed w)
   <-> exists sessionId body reaction,
         c = POST sessionId body reaction
         /\ no_session_id sessionId = true /\ isInit body = true)
  /\ (constructed (fst (serve isInit w c)) = constructed w
      \/ constructed (fst (serve isInit w c)) = S (constructed w))
  /\ (forall o, snd (serve isInit w c) = Some o ->
        (exists status payload, o = Responded status payload)
        \/ (exists error, o = Threw error) ->
        fst (serve isInit w c) = w).
Proof.
  destruct c as [sid body reaction | sid reaction | sid reaction | t]; simpl.
  - destruct (post isInit w sid body reaction) as [w' o] eqn:Hp. simpl.
    unfold post in Hp.
    destruct (truthy_lookup (session_lookup w sid)) eqn:Ht.
    + assert (no_session_id sid = false) as Hn.
      { destruct (no_session_id sid) eqn:Hn; [|done].
        rewrite (session_lookup_no_session_id w sid Hn) in Ht. discriminate. }
      destruct (session_lookup w sid) as [t| |];
        injection Hp as <- <-; rewrite ?constructed_handleRequest.
      * split; [split; [lia | intros (? & ? & ? & [= -> _ _] & ? & _); congruence]|].
        split; [by left|]. intros o [= <-] [(? & ? & ?) | (? & ?)]; discriminate.
      * split; [split; [lia | intros (? & ? & ? & [= -> _ _] & ? & _); congruence]|].
        split; [by left | done].
      * discriminate Ht.
    + destruct (no_session_id sid && isInit body) eqn:Hg;
        injection Hp as <- <-; rewrite ?constructed_handleRequest; simpl.
      * apply andb_true_iff in Hg as [Hn Hi].
        split; [split; [eauto 6 | done]|].
        split; [by right|]. intros o [= <-] [(? & ? & ?) | (? & ?)]; discriminate.
      * split; [split; [lia | intros (? & ? & ? & [= -> -> _] & Hn & Hi)]|].
        { rewrite Hn, Hi in Hg. discriminate. }
        split; [by left | done].
  - destruct (handleSessionRequest w sid reaction) as [w' o] eqn:Hp. simpl.
    unfold handleSessionRequest in Hp.
    destruct (no_session_id sid || negb (truthy_lookup (session_lookup w sid))).
    + injection Hp as <- <-.
      split; [split; [lia | intros (? & ? & ? & ? & _); discriminate]|].
      split; [by left | done].
    + destruct (session_lookup w sid) as [t| |];
        injection Hp as <- <-; rewrite ?constructed_handleRequest;
        (split; [split; [lia | intros (? & ? & ? & ? & _); discriminate]|]);
        (split; [by left|]); try done.
      intros o [= <-] [(? & ? & ?) | (? & ?)]; discriminate.
  - destruct (handleSessionRequest w sid reaction) as [w' o] eqn:Hp. simpl.
    unfold handleSessionRequest in Hp.
    destruct (no_session_id sid || negb (truthy_lookup (session_lookup w sid))).
    + injection Hp as <- <-.
      split; [split; [lia | intros (? & ? & ? & ? & _); discriminate]|].
      split; [by left | done].
    + destruct (session_lookup w sid) as [t| |];
        injection Hp as <- <-; rewrite ?constructed_handleRequest;
        (split; [split; [lia | intros (? & ? & ? & ? & _); discriminate]|]);
        (split; [by left|]); try done.
      intros o [= <-] [(? & ? & ?) | (? & ?)]; discriminate.
  - rewrite constructed_onclose.
    split; [split; [lia | intros (? & ? & ? & ? & _); discriminate]|].
    split; [by left | discriminate].
Qed.

(** X3. The life of a session. After a POST without header whose body is
    an initialization request, during which the SDK drew the identifier
    [g]: a POST carrying [g] is handed to the transport just constructed;
    a DELETE carrying [g] goes to it too and, the SDK closing it, removes
    [g] from the store; from then on a POST carrying [g] is refused with
    the -32000 envelope, initialization request or not, and a GET or DELETE
    with "Invalid or missing session ID". *)
Theorem session_lifecycle {Body : Type} (isInit : Body -> bool) (w : World)
    (body later : Body) (g : string) (reaction : list SdkEvent) :
  isInit body = true ->
  is_uuid g = true ->
  let opened := fst (post isInit w None body [SessionInitialized g]) in
  let closed := fst (handleSessionRequest (Body := Body) opened (Some g)
                       [TransportClosed]) in
  post isInit opened (Some g) later []
  = (opened, Delegated (constructed w) (Some later))
  /\ snd (handleSessionRequest (Body := Body) opened (Some g) [TransportClosed])
     = Delegated (constructed w) None
  /\ transports closed !! g = None
  /\ post isInit closed (Some g) later reaction
     = (closed, Responded 400 no_valid_session)
  /\ handleSessionRequest (Body := Body) closed (Some g) reaction
     = (closed, Responded 400 invalid_or_missing).
Proof.
  intros Hinit Hu. cbv zeta.
  pose proof (is_uuid_truthy g Hu) as Ht.
  pose proof (is_uuid_not_inherited g Hu) as Hni.
  rewrite (post_initiate isInit w None body _ eq_refl Hinit). simpl.
  set (opened := onsessioninitialized (constructed w) g _).
  assert (transports opened !! g = Some (constructed w)) as Hb
    by apply lookup_insert_eq.
  rewrite (post_continue isInit opened g _ later [] Ht Hb).
  rewrite (handleSessionRequest_delegates opened g _ [TransportClosed] Ht Hb).
  simpl.
  assert (onclose (constructed w) opened
          = {| transports := delete g (transports opened);
               sessionId_of := sessionId_of opened;
               constructed := constructed opened |}) as ->.
  { unfold onclose. simpl. by rewrite lookup_insert_eq, Ht. }
  set (closed := {| transports := delete g (transports opened) |}).
  assert (transports closed !! g = None) as Hgone by apply lookup_delete_eq.
  split; [done|]. split; [done|]. split; [done|]. split.
  - unfold post. rewrite (session_lookup_unbound closed g Hgone Hni).
    simpl. by rewrite Ht.
  - apply handleSessionRequest_rejects. by apply session_lookup_unbound.
Qed.

(** X4. Serving a request on one transport touches that transport's
    session only: the [sessionId] of every other transport stays as it
    was, and so does the binding of every identifier other than the one the
    transport holds and those the SDK generates during the request. *)
Theorem handleRequest_keeps_other_sessions (t : nat) (reaction : list SdkEvent)
    (w : World) :
  (forall t', t' <> t ->
     sessionId_of (handleRequest t reaction w) !! t' = sessionId_of w !! t')
  /\ (forall id,
        sessionId_of w !! t <> Some id ->
        ~ In (SessionInitialized id) reaction ->
        transports (handleRequest t reaction w) !! id = transports w !! id).
Proof.
  unfold handleRequest. revert w.
  induction reaction as [|e reaction IH]; intros w; simpl; [done|].
  destruct (IH (fire t w e)) as [IHs IHt]. split.
  - intros t' Hne. rewrite (IHs t' Hne).
    destruct e as [g|]; simpl; [by apply lookup_insert_ne|].
    unfold onclose. destruct (sessionId_of w !! t) as [s|]; [|done].
    by destruct (truthy_string s).
  - intros id Hown Hgen.
    assert (e <> SessionInitialized id) as He by (intros ->; apply Hgen; by left).
    rewrite IHt.
    + destruct e as [g|]; simpl.
      * apply lookup_insert_ne. congruence.
      * unfold onclose. destruct (sessionId_of w !! t) as [s|] eqn:Hs; [|done].
        destruct (truthy_string s); [|done]. simpl.
        apply lookup_delete_ne. congruence.
    + destruct e as [g|]; simpl.
      * rewrite lookup_insert_eq. congruence.
      * unfold onclose. destruct (sessionId_of w !! t) as [s|] eqn:Hs;
          [destruct (truthy_string s)|]; simpl; by rewrite ?Hs.
    + intros Hin. apply Hgen. by right.
Qed.

(** ** Stripping the expression *)

Lemma replace_disallowed_app (a b : string) :
  replace_disallowed (a ++ b) = replace_disallowed a ++ replace_disallowed b.
Proof.
  induction a as [|c a IH]; simpl; [done|].
  destruct (in_class c); simpl; by rewrite IH.
Qed.

Lemma replace_disallowed_length (expression : string) :
  String.length (replace_disallowed expression) <= String.length expression.
Proof.
  induction expression as [|c rest IH]; simpl; [done|].
  destruct (in_class c); simpl; lia.
Qed.

(** X5. Stripping distributes over concatenation, never lengthens the text
    and changes nothing when applied a second time; so a caller that strips
    the expression beforehand gets, whenever the evaluation succeeds, the
    very result the tool gives for the original. *)
Theorem replace_disallowed_composes (a b : string) :
  replace_disallowed (a ++ b) = replace_disallowed a ++ replace_disallowed b
  /\ replace_disallowed (replace_disallowed a) = replace_disallowed a
  /\ String.length (replace_disallowed a) <= String.length a
  /\ (forall (eval : string -> Completion) rendered,
        eval (replace_disallowed a) = Normal rendered ->
        calculate eval (replace_disallowed a) = calculate eval a
        /\ calculate eval a = text_result ("Result: " ++ rendered)).
Proof.
  assert (replace_disallowed (replace_disallowed a) = replace_disallowed a)
    as Hidem by apply replace_disallowed_id, replace_disallowed_in_class.
  split; [apply replace_disallowed_app|]. split; [exact Hidem|].
  split; [apply replace_disallowed_length|].
  intros eval rendered He. unfold calculate. by rewrite Hidem, He.
Qed.

(** ** The conversion table *)

Ltac split_keys :=
  repeat match goal with
         | |- context [decide (?a = ?b)] =>
             destruct (decide (a = b)) as [?E|?E]; [subst|]
         end.

Lemma entry_defined {N : Type} (A : Arith N) (fromUnit toUnit : string) :
  is_Some (entry A fromUnit toUnit) <-> In (fromUnit, toUnit) supported_pairs.
Proof.
  unfold entry, conversions, supported_pairs.
  rewrite !lookup_insert, lookup_singleton.
  split_keys; simpl; rewrite ?lookup_singleton; split_keys; simpl.
  all: split;
    [intros [? H]; try discriminate H; tauto
    | intros H; try (eexists; reflexivity)].
  all: repeat (destruct H as [H|H]; [congruence|]); try done.
Qed.

(** X6. The table has an entry for exactly six pairs of units; whenever it
    converts one way it converts back; and it has no entry from a unit to
    itself, so that converting, say, miles to miles is answered with the
    "not supported" text. *)
Theorem conversion_table_pairs {N : Type} (A : Arith N) :
  (forall fromUnit toUnit,
     is_Some (entry A fromUnit toUnit) <-> In (fromUnit, toUnit) supported_pairs)
  /\ (forall fromUnit toUnit,
        is_Some (entry A fromUnit toUnit) -> is_Some (entry A toUnit fromUnit))
  /\ (forall unit, entry A unit unit = None)
  /\ (forall host_number_to_string inherited_call builtin_member value unit,
        inherited_name unit = false ->
        convert host_number_to_string inherited_call builtin_member
          value unit unit
        = text_result ("Error: Conversion from " ++ unit ++ " to " ++ unit
                       ++ " is not supported.")).
Proof.
  assert (forall N' (A' : Arith N') unit, entry A' unit unit = None) as Hself.
  { intros N' A' unit. apply eq_None_not_Some. rewrite entry_defined.
    unfold supported_pairs. simpl. intros H.
    repeat (destruct H as [H|H]; [injection H as <- H; discriminate H|]).
    done. }
  split; [apply entry_defined|]. split; [|split; [apply Hself|]].
  - intros fromUnit toUnit. rewrite !entry_defined. unfold supported_pairs.
    simpl. intros H.
    repeat (destruct H as [H|H]; [injection H as <- <-; tauto|]). done.
  - intros h ic bm value unit Hu. by apply convert_not_supported.
Qed.

(** X7. Unlike the temperature entries, the two distance entries and the
    two weight entries are not inverse to each other even up to rounding:
    0.621371 * 1.60934 and 2.20462 * 0.453592 are below 1, and in the
    binary64 arithmetic the tool runs, for every whole number from 1 to
    100000, converting there and back, in either order, returns a Number
    strictly smaller than the one started from. *)
Theorem scale_entries_not_inverse (n : Z) :
  (1 <= n <= 100000)%Z ->
  (exists x, round_trip binary64 "kilometers" "miles" (float_of_int n) = Some x
             /\ PrimFloat.ltb x (float_of_int n) = true)
  /\ (exists x, round_trip binary64 "miles" "kilometers" (float_of_int n) = Some x
                /\ PrimFloat.ltb x (float_of_int n) = true)
  /\ (exists x, round_trip binary64 "kilograms" "pounds" (float_of_int n) = Some x
                /\ PrimFloat.ltb x (float_of_int n) = true)
  /\ (exists x, round_trip binary64 "pounds" "kilograms" (float_of_int n) = Some x
                /\ PrimFloat.ltb x (float_of_int n) = true).
Proof.
  pose (scale := fun (d1 : Z) (k1 : nat) (d2 : Z) (k2 : nat) (v : float) =>
          mul binary64 (mul binary64 v (literal binary64 d1 k1))
            (literal binary64 d2 k2)).
  assert (forall v, round_trip binary64 "kilometers" "miles" v
                    = Some (scale 621371%Z 6 160934%Z 5 v)) as H1 by reflexivity.
  assert (forall v, round_trip binary64 "miles" "kilometers" v
                    = Some (scale 160934%Z 5 621371%Z 6 v)) as H2 by reflexivity.
  assert (forall v, round_trip binary64 "kilograms" "pounds" v
                    = Some (scale 220462%Z 5 453592%Z 6 v)) as H3 by reflexivity.
  assert (forall v, round_trip binary64 "pounds" "kilograms" v
                    = Some (scale 453592%Z 6 220462%Z 5 v)) as H4 by reflexivity.
  assert (forallb (fun n => PrimFloat.ltb (scale 621371%Z 6 160934%Z 5 (float_of_int n))
                              (float_of_int n)
                            && (PrimFloat.ltb
                                  (scale 160934%Z 5 621371%Z 6 (float_of_int n))
                                  (float_of_int n)
                            && (PrimFloat.ltb
                                  (scale 220462%Z 5 453592%Z 6 (float_of_int n))
                                  (float_of_int n)
                            && PrimFloat.ltb
                                 (scale 453592%Z 6 220462%Z 5 (float_of_int n))
                                 (float_of_int n))))
            (Z_range 1 100000) = true) as Hall
    by (vm_compute; reflexivity).
  intros Hn.
  pose proof (forallb_Z_range _ _ _ n Hall Hn) as H. cbv beta in H.
  apply andb_true_iff in H as [L1 H]. apply andb_true_iff in H as [L2 H].
  apply andb_true_iff in H as [L3 L4].
  split; [exists (scale 621371%Z 6 160934%Z 5 (float_of_int n)); by split|].
  split; [exists (scale 160934%Z 5 621371%Z 6 (float_of_int n)); by split|].
  split; [exists (scale 220462%Z 5 453592%Z 6 (float_of_int n)); by split|].
  exists (scale 453592%Z 6 220462%Z 5 (float_of_int n)); by split.
Qed.

(** ** Formatting dates *)

Lemma list_ascii_of_string_app (a b : string) :
  list_ascii_of_string (a ++ b)
  = (list_ascii_of_string a ++ list_ascii_of_string b)%list.
Proof. induction a as [|c a IH]; simpl; [done | by rewrite IH]. Qed.

Lemma string_app_nil_r (a : string) : a ++ "" = a.
Proof.
  induction a as [|c a IH]; [done|].
  change (String c a ++ "") with (String c (a ++ "")). by f_equal.
Qed.

Lemma no_pattern_letter_app (a b : string) :
  no_pattern_letter a -> no_pattern_letter b -> no_pattern_letter (a ++ b).
Proof.
  unfold no_pattern_letter. rewrite list_ascii_of_string_app.
  intros Ha Hb. by apply Forall_app.
Qed.

Lemma string_of_uint_no_pattern_letter (u : Decimal.uint) :
  no_pattern_letter (NilEmpty.string_of_uint u).
Proof.
  unfold no_pattern_letter.
  induction u; simpl; constructor; done.
Qed.

Lemma show_integer_no_pattern_letter (z : Z) :
  no_pattern_letter (show_integer z).
Proof.
  unfold show_integer, NilZero.string_of_int, NilZero.string_of_uint.
  destruct (Z.to_int z) as [u|u].
  - destruct u; try apply string_of_uint_no_pattern_letter.
    repeat constructor.
  - apply (no_pattern_letter_app "-"); [repeat constructor|].
    destruct u; try apply string_of_uint_no_pattern_letter.
    repeat constructor.
Qed.

Lemma getter_text_no_pattern_letter (n : option Z) :
  no_pattern_letter (getter_text n).
Proof.
  destruct n as [z|]; simpl;
    [apply show_integer_no_pattern_letter | repeat constructor].
Qed.

Lemma zeros_no_pattern_letter (k : nat) : no_pattern_letter (zeros k).
Proof. induction k; simpl; [constructor | by constructor]. Qed.

Lemma padStart_zero_no_pattern_letter (k : nat) (n : option Z) :
  no_pattern_letter (padStart_zero k (getter_text n)).
Proof.
  apply no_pattern_letter_app;
    [apply zeros_no_pattern_letter | apply getter_text_no_pattern_letter].
Qed.

(** A stretch of text in which the first character of the pattern does not
    occur is passed over. *)
Lemma replace_all_skip (p0 : ascii) (pat' rep a b : string) :
  Forall (fun c => c <> p0) (list_ascii_of_string a) ->
  replace_all (String p0 pat') rep (a ++ b)
  = a ++ replace_all (String p0 pat') rep b.
Proof.
  unfold replace_all. induction a as [|c a IH]; intros H; [done|].
  inversion H as [|? ? Hc Ha]; subst.
  change (String c a ++ b) with (String c (a ++ b)).
  cbn [replace_all_from String.prefix].
  destruct (ascii_dec p0 c) as [->|_]; [done|].
  change (String c a ++ ?x) with (String c (a ++ x)). f_equal. by apply IH.
Qed.

Lemma replace_all_skip_plain (p0 : ascii) (pat' rep a b : string) :
  pattern_letter p0 = true -> no_pattern_letter a ->
  replace_all (String p0 pat') rep (a ++ b)
  = a ++ replace_all (String p0 pat') rep b.
Proof.
  intros Hp Ha. apply replace_all_skip.
  eapply List.Forall_impl; [|exact Ha]. simpl. intros c Hc ->. congruence.
Qed.

(** A pattern that does not occur is not replaced. *)
Lemma replace_all_absent (p0 : ascii) (pat' rep s : string) :
  occurs (String p0 pat') s = false -> replace_all (String p0 pat') rep s = s.
Proof.
  unfold replace_all. induction s as [|c s IH]; [done|].
  cbn [occurs replace_all_from]. intros H.
  apply orb_false_iff in H as [Hp Ho]. rewrite Hp. f_equal. by apply IH.
Qed.

Lemma prefix_app (pat rest : string) : String.prefix pat (pat ++ rest) = true.
Proof.
  induction pat as [|c pat IH]; [by destruct rest|].
  change (String c pat ++ rest) with (String c (pat ++ rest)).
  cbn [String.prefix]. by destruct (ascii_dec c c).
Qed.

Lemma replace_all_from_skip (pat rep t rest : string) :
  replace_all_from (String.length t) pat rep (t ++ rest)
  = replace_all_from 0 pat rep rest.
Proof. induction t as [|c t IH]; [done | exact IH]. Qed.

(** A match at the head is replaced, and the search goes on behind it. *)
Lemma replace_all_hit (p0 : ascii) (pat' rep rest : string) :
  replace_all (String p0 pat') rep (String p0 pat' ++ rest)
  = rep ++ replace_all (String p0 pat') rep rest.
Proof.
  unfold replace_all.
  change (String p0 pat' ++ rest) with (String p0 (pat' ++ rest)).
  cbn [replace_all_from].
  change (String p0 (pat' ++ rest)) with (String p0 pat' ++ rest).
  rewrite prefix_app. f_equal.
  change (String.length (String p0 pat') - 1) with (String.length pat' - 0).
  rewrite Nat.sub_0_r. apply replace_all_from_skip.
Qed.

Ltac skip_text :=
  rewrite replace_all_skip_plain
    by first [ reflexivity
             | assumption
             | apply getter_text_no_pattern_letter
             | apply padStart_zero_no_pattern_letter ].

(** One piece at the head of the format. *)
Lemma formatDate_piece (date : DateObject) (p : Piece) (rest : string) :
  plain_piece p ->
  formatDate date (pattern_of p ++ rest)
  = rendering_of date p ++ formatDate date rest.
Proof.
  intros Hp. unfold formatDate.
  destruct p as [s| | | | | |]; cbn [pattern_of rendering_of plain_piece] in *.
  - by do 6 skip_text.
  - rewrite replace_all_hit.
    by do 5 skip_text.
  - change ("MM" ++ rest) with (String "M" (String "M" rest)).
    rewrite (replace_all_skip "Y" "YYY" _ "MM" rest)
      by (repeat constructor; discriminate).
    rewrite replace_all_hit.
    by do 4 skip_text.
  - rewrite (replace_all_skip "Y" "YYY" _ "DD" rest)
      by (repeat constructor; discriminate).
    rewrite (replace_all_skip "M" "M" _ "DD")
      by (repeat constructor; discriminate).
    rewrite replace_all_hit.
    by do 3 skip_text.
  - rewrite (replace_all_skip "Y" "YYY" _ "HH" rest)
      by (repeat constructor; discriminate).
    rewrite (replace_all_skip "M" "M" _ "HH")
      by (repeat constructor; discriminate).
    rewrite (replace_all_skip "D" "D" _ "HH")
      by (repeat constructor; discriminate).
    rewrite replace_all_hit.
    by do 2 skip_text.
  - rewrite (replace_all_skip "Y" "YYY" _ "mm" rest)
      by (repeat constructor; discriminate).
    rewrite (replace_all_skip "M" "M" _ "mm")
      by (repeat constructor; discriminate).
    rewrite (replace_all_skip "D" "D" _ "mm")
      by (repeat constructor; discriminate).
    rewrite (replace_all_skip "H" "H" _ "mm")
      by (repeat constructor; discriminate).
    rewrite replace_all_hit.
    by skip_text.
  - rewrite (replace_all_skip "Y" "YYY" _ "ss" rest)
      by (repeat constructor; discriminate).
    rewrite (replace_all_skip "M" "M" _ "ss")
      by (repeat constructor; discriminate).
    rewrite (replace_all_skip "D" "D" _ "ss")
      by (repeat constructor; discriminate).
    rewrite (replace_all_skip "H" "H" _ "ss")
      by (repeat constructor; discriminate).
    rewrite (replace_all_skip "m" "m" _ "ss")
      by (repeat constructor; discriminate).
    by rewrite replace_all_hit.
Qed.

Lemma formatDate_pieces (date : DateObject) (ps : list Piece) :
  Forall plain_piece ps ->
  formatDate date (concat_pieces pattern_of ps)
  = concat_pieces (rendering_of date) ps.
Proof.
  induction 1 as [|p ps Hp _ IH]; [reflexivity|].
  cbn [concat_pieces]. by rewrite formatDate_piece, IH.
Qed.

(** X8. On a format made of the six patterns [YYYY MM DD HH mm ss] and of
    text in which none of the letters [Y M D H m s] occurs, the six
    replacements done one after the other amount to replacing each pattern
    by its own field: the year as it is, the month counted from 1, and
    month, day, hours, minutes and seconds padded to two characters. No
    replacement touches what an earlier one put in. *)
Theorem formatDate_replaces_each_pattern (date : DateObject) (ps : list Piece) :
  Forall plain_piece ps ->
  formatDate date (concat_pieces pattern_of ps)
  = concat_pieces (rendering_of date) ps.
Proof. apply formatDate_pieces. Qed.

(** X9. A format in which none of the six patterns occurs comes back
    unchanged, whatever the date: the patterns are matched with their case
    and at their full width, so [yyyy], [YY], [M], [dd] or [hh] are left
    alone. *)
Theorem formatDate_without_patterns (date : DateObject) (format : string) :
  occurs "YYYY" format = false -> occurs "MM" format = false ->
  occurs "DD" format = false -> occurs "HH" format = false ->
  occurs "mm" format = false -> occurs "ss" format = false ->
  formatDate date format = format.
Proof.
  intros HY HM HD HH Hm Hs. unfold formatDate.
  rewrite (replace_all_absent "Y" "YYY" _ format HY).
  rewrite (replace_all_absent "M" "M" _ format HM).
  rewrite (replace_all_absent "D" "D" _ format HD).
  rewrite (replace_all_absent "H" "H" _ format HH).
  rewrite (replace_all_absent "m" "m" _ format Hm).
  by rewrite (replace_all_absent "s" "s" _ format Hs).
Qed.

Lemma padStart_zero_two_digits (n : Z) :
  (0 <= n <= 99)%Z -> padStart_zero 2 (show_integer n) = two_digits n.
Proof.
  intros Hn. replace n with (Z.of_nat (Z.to_nat n)) by lia.
  assert (Z.to_nat n < 100) as Hk by lia.
  generalize dependent (Z.to_nat n). clear Hn n. intros k Hk.
  do 100 (destruct k as [|k]; [vm_compute; reflexivity|]). lia.
Qed.

(** X10. For a date whose getters return a month index from 0 to 11, a
    day from 1 to 31, hours from 0 to 23 and minutes and seconds from 0 to
    59, the format "YYYY-MM-DD HH:mm:ss" gives the year, then month (one
    more than the index), day, hours, minutes and seconds, each with
    exactly two digits. *)
Theorem formatDate_timestamp (date : DateObject) (y mo d h mi s : Z) :
  getFullYear date = Some y -> getMonth date = Some mo ->
  getDate date = Some d -> getHours date = Some h ->
  getMinutes date = Some mi -> getSeconds date = Some s ->
  (0 <= mo <= 11)%Z -> (1 <= d <= 31)%Z -> (0 <= h <= 23)%Z ->
  (0 <= mi <= 59)%Z -> (0 <= s <= 59)%Z ->
  formatDate date "YYYY-MM-DD HH:mm:ss"
  = show_integer y ++ "-" ++ two_digits (mo + 1) ++ "-" ++ two_digits d
    ++ " " ++ two_digits h ++ ":" ++ two_digits mi ++ ":" ++ two_digits s.
Proof.
  intros Hy Hmo Hd Hh Hmi Hs Rmo Rd Rh Rmi Rs.
  change "YYYY-MM-DD HH:mm:ss"
    with (concat_pieces pattern_of
            [Year; Verbatim "-"; Month; Verbatim "-"; Day; Verbatim " ";
             Hours; Verbatim ":"; Minutes; Verbatim ":"; Seconds]).
  rewrite formatDate_pieces by (repeat constructor).
  cbn [concat_pieces rendering_of]. rewrite Hy, Hmo, Hd, Hh, Hmi, Hs.
  cbn [getter_text option_map].
  rewrite !padStart_zero_two_digits by lia.
  by rewrite string_app_nil_r.
Qed.

Lemma concat_pieces_ext (f g : Piece -> string) (ps : list Piece) :
  (forall p, f p = g p) -> concat_pieces f ps = concat_pieces g ps.
Proof.
  intros H. induction ps as [|p ps IH]; [done|].
  cbn [concat_pieces]. by rewrite H, IH.
Qed.

(** X11. What the tool answers for a date text that the engine cannot
    parse depends on whether a format is given: without one,
    [toISOString] throws and the answer is the "Error formatting date"
    text; with one, nothing throws and the answer is the format with every
    pattern replaced by [NaN]. *)
Theorem format_date_invalid_date
    (newDate : string -> DateObject) (now : DateObject) (range_error : string)
    (date : string) (ps : list Piece) :
  date <> "" ->
  invalid_date (newDate date) ->
  format_date newDate now range_error (Some date) None
  = text_result ("Error formatting date: " ++ range_error)
  /\ (Forall plain_piece ps ->
      concat_pieces pattern_of ps <> "" ->
      format_date newDate now range_error (Some date)
        (Some (concat_pieces pattern_of ps))
      = text_result
          (concat_pieces
             (fun p => match p with Verbatim s => s | _ => "NaN" end) ps)).
Proof.
  intros Hd (Hy & Hmo & Hda & Hh & Hmi & Hs & Hiso).
  apply truthy_string_spec in Hd. unfold format_date. rewrite Hd.
  split; [by rewrite Hiso|].
  intros Hps Hf. apply truthy_string_spec in Hf. rewrite Hf.
  rewrite formatDate_pieces by done. f_equal.
  apply concat_pieces_ext. intros p.
  destruct p; cbn [rendering_of];
    rewrite ?Hy, ?Hmo, ?Hda, ?Hh, ?Hmi, ?Hs; reflexivity.
Qed.

(** ** Loading the schemas *)

Lemma string_length_app (a b : string) :
  String.length (a ++ b) = String.length a + String.length b.
Proof.
  induction a as [|c a IH]; [done|].
  change (String c a ++ b) with (String c (a ++ b)). simpl. by rewrite IH.
Qed.

Lemma substring_all (s : string) : substring 0 (String.length s) s = s.
Proof. induction s as [|c s IH]; simpl; [done | by rewrite IH]. Qed.

Lemma substring_app_r (a b : string) (m : nat) :
  substring (String.length a) m (a ++ b) = substring 0 m b.
Proof. induction a as [|c a IH]; [done | exact IH]. Qed.

Lemma endsWith_app (a suffix : string) : endsWith (a ++ suffix) suffix = true.
Proof.
  unfold endsWith. rewrite string_length_app.
  replace (String.length a + String.length suffix - String.length suffix)
    with (String.length a) by lia.
  rewrite substring_app_r, substring_all, String.eqb_refl.
  rewrite andb_true_r. apply Nat.leb_le. lia.
Qed.

(** The first [.sql] is the one removed. *)
Lemma replace_first_sql (a b : string) :
  Forall (fun c => c <> "."%char) (list_ascii_of_string a) ->
  replace_first ".sql" "" (a ++ (".sql" ++ b)) = a ++ b.
Proof.
  induction a as [|c a IH]; intros H.
  - change ("" ++ (".sql" ++ b)) with (".sql" ++ b).
    change (".sql" ++ b) with (String "." ("sql" ++ b)).
    cbn [replace_first].
    change (String "." ("sql" ++ b)) with (".sql" ++ b).
    by rewrite prefix_app.
  - inversion H as [|? ? Hc Ha]; subst.
    change (String c a ++ ?x) with (String c (a ++ x)).
    cbn [replace_first String.prefix].
    destruct (ascii_dec "." c) as [<-|_]; [done|].
    f_equal. by apply IH.
Qed.

(** X12. The table name of a schema file is its name with the first
    [.sql] removed. When the name has no dot before its [.sql] extension
    that is the name without the extension; when [.sql] comes earlier in
    the name, it is the earlier one that goes, and the file is loaded under
    a table name that still carries what followed it. *)
Theorem schema_table_name (readFile : string -> option string)
    (schemas : gmap string string) (stem rest content : string) :
  Forall (fun c => c <> "."%char) (list_ascii_of_string stem) ->
  endsWith (stem ++ ".sql") ".sql" = true
  /\ replace_first ".sql" "" (stem ++ ".sql") = stem
  /\ (endsWith (stem ++ (".sql" ++ rest)) ".sql" = true ->
      readFile (stem ++ (".sql" ++ rest)) = Some content ->
      load_schema_files readFile schemas [stem ++ (".sql" ++ rest)]
      = Some (assign_string schemas (stem ++ rest) content)).
Proof.
  intros Hstem. split; [apply endsWith_app|]. split.
  - pose proof (replace_first_sql stem "" Hstem) as H.
    change (".sql" ++ "") with ".sql" in H.
    by rewrite string_app_nil_r in H.
  - intros He Hr. cbn [load_schema_files].
    by rewrite He, Hr, (replace_first_sql stem rest Hstem).
Qed.

Lemma load_schema_files_unreadable (readFile : string -> option string)
    (schemas : gmap string string) (schemaFiles : list string) (file : string) :
  In file schemaFiles -> endsWith file ".sql" = true -> readFile file = None ->
  load_schema_files readFile schemas schemaFiles = None.
Proof.
  revert schemas.
  induction schemaFiles as [|f fs IH]; intros schemas Hin He Hr; [done|].
  cbn [load_schema_files]. destruct Hin as [->|Hin].
  - by rewrite He, Hr.
  - destruct (endsWith f ".sql"); [|by apply IH].
    destruct (readFile f); [by apply IH | done].
Qed.

(** X13. Loading is all or nothing: if the directory cannot be listed, or
    if one file whose name ends in [.sql] cannot be read, the promise
    rejects and [databaseSchemas] stays empty, whatever was read before
    that file. *)
Theorem unreadable_schema_file (readFile : string -> option string)
    (schemaFiles : list string) (file : string) :
  In file schemaFiles -> endsWith file ".sql" = true -> readFile file = None ->
  loadDatabaseSchemas (Some schemaFiles) readFile = None
  /\ databaseSchemas (Some schemaFiles) readFile = ∅
  /\ databaseSchemas None readFile = ∅.
Proof.
  intros Hin He Hr.
  assert (loadDatabaseSchemas (Some schemaFiles) readFile = None) as H
    by (by apply (load_schema_files_unreadable _ _ _ file)).
  split; [done|]. split; [|done]. unfold databaseSchemas. by rewrite H.
Qed.

(** X14. Files whose name does not end in [.sql] play no part: they are
    not read, and the result is what loading the [.sql] files alone
    gives. *)
Theorem other_files_are_ignored (readFile readFile' : string -> option string)
    (schemas : gmap string string) (schemaFiles : list string) :
  load_schema_files readFile schemas schemaFiles
  = load_schema_files readFile schemas
      (List.filter (fun file => endsWith file ".sql") schemaFiles)
  /\ ((forall file, In file schemaFiles -> endsWith file ".sql" = true ->
                    readFile file = readFile' file) ->
      load_schema_files readFile schemas schemaFiles
      = load_schema_files readFile' schemas schemaFiles).
Proof.
  split.
  - revert schemas. induction schemaFiles as [|f fs IH]; intros schemas; [done|].
    cbn [load_schema_files List.filter].
    destruct (endsWith f ".sql") eqn:He; [|apply IH].
    cbn [load_schema_files]. rewrite He.
    destruct (readFile f); [apply IH | done].
  - revert schemas. induction schemaFiles as [|f fs IH]; intros schemas H; [done|].
    cbn [load_schema_files].
    destruct (endsWith f ".sql") eqn:He.
    + rewrite <- (H f (or_introl eq_refl) He).
      destruct (readFile f); [|done].
      apply IH. intros file Hin. apply H. by right.
    + apply IH. intros file Hin. apply H. by right.
Qed.

Lemma load_schema_files_sound (readFile : string -> option string)
    (schemas loaded : gmap string string) (schemaFiles : list string)
    (tableName content : string) :
  load_schema_files readFile schemas schemaFiles = Some loaded ->
  loaded !! tableName = Some content ->
  schemas !! tableName = Some content
  \/ (tableName <> "__proto__"
      /\ exists file, In file schemaFiles /\ endsWith file ".sql" = true
                      /\ replace_first ".sql" "" file = tableName
                      /\ readFile file = Some content).
Proof.
  revert schemas.
  induction schemaFiles as [|f fs IH]; intros schemas Hl Hc.
  - injection Hl as <-. by left.
  - cbn [load_schema_files] in Hl.
    destruct (endsWith f ".sql") eqn:He.
    + destruct (readFile f) as [c|] eqn:Hr; [|done].
      destruct (IH _ Hl Hc) as [H | (Hne & file & Hin & ? & ? & ?)].
      * unfold assign_string in H.
        destruct (String.eqb_spec (replace_first ".sql" "" f) "__proto__")
          as [_|Hnp]; [by left|].
        apply lookup_insert_Some in H as [[<- <-] | [_ H]]; [|by left].
        right. split; [done|]. exists f. split; [by left | done].
      * right. split; [done|]. exists file. split; [by right | done].
    + destruct (IH _ Hl Hc) as [H | (Hne & file & Hin & ? & ? & ?)];
        [by left|].
      right. split; [done|]. exists file. split; [by right | done].
Qed.

(** X15. Every table of the loaded schemas comes from a file of the
    directory whose name ends in [.sql]: its name is that file's name with
    the first [.sql] removed, its text is what was read from that file, and
    it is never [__proto__]. *)
Theorem loaded_schemas_come_from_files (readFile : string -> option string)
    (schemaFiles : list string) (loaded : gmap string string)
    (tableName content : string) :
  loadDatabaseSchemas (Some schemaFiles) readFile = Some loaded ->
  loaded !! tableName = Some content ->
  tableName <> "__proto__"
  /\ exists file, In file schemaFiles /\ endsWith file ".sql" = true
                  /\ replace_first ".sql" "" file = tableName
                  /\ readFile file = Some content.
Proof.
  intros Hl Hc.
  destruct (load_schema_files_sound readFile ∅ loaded schemaFiles
              tableName content Hl Hc) as [H|H]; [|done].
  by rewrite lookup_empty in H.
Qed.

Lemma load_schema_files_keeps (readFile : string -> option string)
    (schemas loaded : gmap string string) (schemaFiles : list string)
    (tableName : string) :
  load_schema_files readFile schemas schemaFiles = Some loaded ->
  (forall file, In file schemaFiles -> endsWith file ".sql" = true ->
                replace_first ".sql" "" file <> tableName) ->
  loaded !! tableName = schemas !! tableName.
Proof.
  revert schemas.
  induction schemaFiles as [|f fs IH]; intros schemas Hl Hother.
  - by injection Hl as <-.
  - cbn [load_schema_files] in Hl.
    destruct (endsWith f ".sql") eqn:He.
    + destruct (readFile f) as [c|]; [|done].
      rewrite (IH _ Hl) by (intros file Hin; apply Hother; by right).
      unfold assign_string.
      destruct (String.eqb (replace_first ".sql" "" f) "__proto__"); [done|].
      apply lookup_insert_ne. apply Hother; [by left | done].
    + apply (IH _ Hl). intros file Hin. apply Hother. by right.
Qed.

(** X16. When two files yield the same table name, which happens as soon
    as [.sql] occurs inside a name, the one listed later wins: after a
    successful load, a table holds the text of the last file that yields
    its name. *)
Theorem later_schema_file_wins (readFile : string -> option string)
    (schemas loaded : gmap string string) (before after : list string)
    (file : string) :
  load_schema_files readFile schemas (before ++ file :: after) = Some loaded ->
  endsWith file ".sql" = true ->
  replace_first ".sql" "" file <> "__proto__" ->
  (forall later, In later after -> endsWith later ".sql" = true ->
                 replace_first ".sql" "" later <> replace_first ".sql" "" file) ->
  loaded !! replace_first ".sql" "" file = readFile file.
Proof.
  revert schemas.
  induction before as [|f fs IH]; intros schemas Hl He Hnp Hlast.
  - cbn [app load_schema_files] in Hl. rewrite He in Hl.
    destruct (readFile file) as [c|]; [|done].
    rewrite (load_schema_files_keeps _ _ _ _ _ Hl Hlast).
    unfold assign_string.
    destruct (String.eqb_spec (replace_first ".sql" "" file) "__proto__");
      [done | apply lookup_insert_eq].
  - cbn [app load_schema_files] in Hl.
    destruct (endsWith f ".sql").
    + destruct (readFile f); [|done]. by apply (IH _ Hl).
    + by apply (IH _ Hl).
Qed.

(* ===================================================================== *)
(** * Part V: the further properties at sample inputs                     *)
(* ===================================================================== *)

Lemma store_holds_generated_identifiers_sample :
  reachable initialize_flag one_session
  /\ transports one_session !! sample_uuid = Some 0
  /\ String.length sample_uuid = 36
  /\ inherited_name sample_uuid = false.
Proof.
  assert (transports one_session !! sample_uuid = Some 0) as Hb
    by (vm_compute; reflexivity).
  destruct (store_holds_generated_identifiers initialize_flag one_session
              sample_uuid 0 one_session_reachable Hb)
    as (_ & Hlen & _ & Hni & _).
  split; [exact one_session_reachable|]. split; [exact Hb|].
  split; [exact Hlen | exact Hni].
Defined.

Lemma calls_construct_on_initiation_only_sample :
  constructed
    (fst (serve initialize_flag initial
            (POST None true [SessionInitialized sample_uuid]))) = 1
  /\ fst (serve initialize_flag one_session (GET (Some other_uuid) []))
     = one_session.
Proof.
  split.
  - destruct (calls_construct_on_initiation_only initialize_flag initial
                (POST None true [SessionInitialized sample_uuid]))
      as [[_ Hinit] _].
    apply Hinit. exists None, true, [SessionInitialized sample_uuid].
    split; [reflexivity|]. split; reflexivity.
  - destruct (calls_construct_on_initiation_only initialize_flag one_session
                (GET (Some other_uuid) [])) as (_ & _ & Hsame).
    apply (Hsame (Responded 400 invalid_or_missing)).
    + vm_compute. reflexivity.
    + left. exists 400%Z, invalid_or_missing. reflexivity.
Defined.

Lemma session_lifecycle_sample :
  initialize_flag true = true
  /\ is_uuid sample_uuid = true
  /\ post initialize_flag one_session (Some sample_uuid) false []
     = (one_session, Delegated 0 (Some false))
  /\ transports
       (fst (handleSessionRequest (Body := bool) one_session
               (Some sample_uuid) [TransportClosed])) !! sample_uuid
     = None.
Proof.
  destruct (session_lifecycle initialize_flag initial true false sample_uuid []
              eq_refl eq_refl) as (Hused & _ & Hgone & _).
  split; [reflexivity|]. split; [reflexivity|].
  split; [exact Hused | exact Hgone].
Defined.

Lemma handleRequest_keeps_other_sessions_sample :
  sessionId_of two_sessions !! 0 <> Some other_uuid
  /\ ~ In (SessionInitialized other_uuid) [TransportClosed]
  /\ transports (handleRequest 0 [TransportClosed] two_sessions) !! sample_uuid
     = None
  /\ transports (handleRequest 0 [TransportClosed] two_sessions) !! other_uuid
     = Some 1.
Proof.
  assert (sessionId_of two_sessions !! 0 <> Some other_uuid) as Hown
    by (vm_compute; discriminate).
  assert (~ In (SessionInitialized other_uuid) [TransportClosed]) as Hgen
    by (intros [H|[]]; discriminate H).
  destruct (handleRequest_keeps_other_sessions 0 [TransportClosed] two_sessions)
    as [_ Hkept].
  split; [exact Hown|]. split; [exact Hgen|].
  split; [vm_compute; reflexivity|].
  rewrite (Hkept other_uuid Hown Hgen). vm_compute. reflexivity.
Defined.

Lemma replace_disallowed_composes_sample :
  reference_eval (replace_disallowed "2 + 2") = Normal "4"
  /\ calculate reference_eval "2 + 2" = text_result "Result: 4".
Proof.
  destruct (replace_disallowed_composes "2 + 2" "") as (_ & _ & _ & Hsame).
  destruct (Hsame reference_eval "4" eq_refl) as [_ Hresult].
  split; [reflexivity | exact Hresult].
Defined.

Lemma conversion_table_pairs_sample :
  inherited_name "miles" = false
  /\ convert (fun _ => "") (fun _ _ x => Returns x) (fun _ _ => None)
       3%float "miles" "miles"
     = text_result "Error: Conversion from miles to miles is not supported.".
Proof.
  destruct (conversion_table_pairs binary64) as (_ & _ & _ & Hself).
  split; [reflexivity|].
  apply (Hself (fun _ => "") (fun _ _ x => Returns x) (fun _ _ => None)
           3%float "miles" eq_refl).
Defined.

Lemma formatDate_replaces_each_pattern_sample :
  Forall plain_piece [Month; Verbatim "/"; Year]
  /\ formatDate sample_date "MM/YYYY" = "03/2024".
Proof.
  assert (Forall plain_piece [Month; Verbatim "/"; Year]) as Hps
    by (repeat constructor).
  split; [exact Hps|].
  exact (formatDate_replaces_each_pattern sample_date
           [Month; Verbatim "/"; Year] Hps).
Defined.

Lemma formatDate_without_patterns_sample :
  occurs "MM" "yyyy-M-dd hh" = false
  /\ formatDate sample_date "yyyy-M-dd hh" = "yyyy-M-dd hh".
Proof.
  split; [reflexivity|].
  apply (formatDate_without_patterns sample_date "yyyy-M-dd hh");
    reflexivity.
Defined.

Lemma formatDate_timestamp_sample :
  getMonth sample_date = Some 2%Z
  /\ formatDate sample_date "YYYY-MM-DD HH:mm:ss" = "2024-03-05 14:07:09".
Proof.
  split; [reflexivity|].
  apply (formatDate_timestamp sample_date 2024 2 5 14 7 9);
    first [reflexivity | lia].
Defined.

Lemma format_date_invalid_date_sample :
  invalid_date unparseable_date
  /\ format_date (fun _ => unparseable_date) sample_date
       "RangeError: Invalid time value" (Some "soon") None
     = text_result "Error formatting date: RangeError: Invalid time value"
  /\ format_date (fun _ => unparseable_date) sample_date
       "RangeError: Invalid time value" (Some "soon") (Some "DD.MM.YYYY")
     = text_result "NaN.NaN.NaN".
Proof.
  assert (invalid_date unparseable_date) as Hinvalid
    by (repeat split; reflexivity).
  assert ("soon" <> "") as Hdate by discriminate.
  destruct (format_date_invalid_date (fun _ => unparseable_date) sample_date
              "RangeError: Invalid time value" "soon"
              [Day; Verbatim "."; Month; Verbatim "."; Year] Hdate Hinvalid)
    as [Hiso Hformat].
  split; [exact Hinvalid|]. split; [exact Hiso|].
  apply Hformat; [repeat constructor | discriminate].
Defined.

Lemma schema_table_name_sample :
  replace_first ".sql" "" "employees.sql" = "employees"
  /\ load_schema_files read_name ∅ ["x.sqlite.sql"]
     = Some (assign_string ∅ "xite.sql" "x.sqlite.sql").
Proof.
  split.
  - destruct (schema_table_name read_name ∅ "employees" "" "")
      as (_ & Hname & _); [repeat constructor; discriminate | exact Hname].
  - destruct (schema_table_name read_name ∅ "x" "ite.sql" "x.sqlite.sql")
      as (_ & _ & Hload); [repeat constructor; discriminate|].
    exact (Hload eq_refl eq_refl).
Defined.

Lemma unreadable_schema_file_sample :
  In "broken.sql" ["employees.sql"; "broken.sql"; "projects.sql"]
  /\ read_unless_broken "broken.sql" = None
  /\ databaseSchemas (Some ["employees.sql"; "broken.sql"; "projects.sql"])
       read_unless_broken
     = ∅.
Proof.
  assert (In "broken.sql" ["employees.sql"; "broken.sql"; "projects.sql"])
    as Hin by (right; left; reflexivity).
  destruct (unreadable_schema_file read_unless_broken
              ["employees.sql"; "broken.sql"; "projects.sql"] "broken.sql"
              Hin eq_refl eq_refl) as (_ & Hempty & _).
  split; [exact Hin|]. split; [reflexivity | exact Hempty].
Defined.

Lemma other_files_are_ignored_sample :
  load_schema_files read_unless_broken ∅ ["employees.sql"; "README.md"]
  = load_schema_files read_name ∅ ["employees.sql"; "README.md"].
Proof.
  destruct (other_files_are_ignored read_unless_broken read_name ∅
              ["employees.sql"; "README.md"]) as [_ H].
  apply H. intros file [<-|[<-|[]]] He; [reflexivity | discriminate He].
Defined.

Lemma loaded_schemas_come_from_files_sample :
  loadDatabaseSchemas (Some ["employees.sql"; "README.md"]) read_name
  = Some {[ "employees" := "employees.sql" ]}
  /\ exists file,
       In file ["employees.sql"; "README.md"]
       /\ endsWith file ".sql" = true
       /\ replace_first ".sql" "" file = "employees"
       /\ read_name file = Some "employees.sql".
Proof.
  assert (loadDatabaseSchemas (Some ["employees.sql"; "README.md"]) read_name
          = Some {[ "employees" := "employees.sql" ]}) as Hl
    by (vm_compute; reflexivity).
  split; [exact Hl|].
  destruct (loaded_schemas_come_from_files read_name
              ["employees.sql"; "README.md"]
              {[ "employees" := "employees.sql" ]}
              "employees" "employees.sql" Hl) as [_ H];
    [vm_compute; reflexivity | exact H].
Defined.

Lemma later_schema_file_wins_sample :
  replace_first ".sql" "" ".sqla.sql" = "a.sql"
  /\ replace_first ".sql" "" "a.sql.sql" = "a.sql"
  /\ load_schema_files read_name ∅ [".sqla.sql"; "a.sql.sql"]
     = Some {[ "a.sql" := "a.sql.sql" ]}
  /\ ({[ "a.sql" := "a.sql.sql" ]} : gmap string string) !! "a.sql"
     = read_name "a.sql.sql".
Proof.
  assert (load_schema_files read_name ∅ ([".sqla.sql"] ++ "a.sql.sql" :: [])
          = Some {[ "a.sql" := "a.sql.sql" ]}) as Hl
    by (vm_compute; reflexivity).
  split; [reflexivity|]. split; [reflexivity|]. split; [exact Hl|].
  apply (later_schema_file_wins read_name ∅ _ [".sqla.sql"] [] "a.sql.sql" Hl).
  - reflexivity.
  - discriminate.
  - intros later [].
Defined.

Lemma scale_entries_not_inverse_sample :
  (1 <= 42 <= 100000)%Z
  /\ exists x, round_trip binary64 "kilometers" "miles" (float_of_int 42) = Some x
               /\ PrimFloat.ltb x (float_of_int 42) = true.
Proof.
  assert (1 <= 42 <= 100000)%Z as Hn by lia.
  split; [exact Hn|].
  exact (proj1 (scale_entries_not_inverse 42%Z Hn)).
Defined.
